(** * Auth API: register / login over an in-memory user store

    Shallow embedding of [src/backend_auth_api/src/api/main.py] and the
    properties of its registration / login state machine.

    Modelling conventions.
    - A Python [str] is a Rocq [string] holding the UTF-8 encoding of the
      text, so [pw.encode("utf-8")] is the byte sequence of the string itself.
      [len] counts code points, i.e. the bytes that are not UTF-8
      continuation bytes.
    - [str.strip()] removes the whitespace characters of [str.isspace],
      all of them, found in the string under their UTF-8 encoding.
    - [str.lower()] follows the Unicode case tables, which are no part of
      the repository: the endpoints take it as a parameter [str_lower], and
      what is proved of them holds for every lowercasing function.  [lower]
      is that function on strings whose only cased characters are ASCII
      letters; it serves for concrete runs and in [allow_credentials_env],
      where only ASCII letters can lead to an accepted value.
    - A Python [dict] with string keys and values is a [gmap string string];
      the module-level [_USERS] is threaded explicitly as the state of the
      handlers.
    - [raise] is a tagged result: the handler stops and the store is the
      one reached so far.
    - [hashlib.sha256] is SHA-256 as defined by FIPS 180-4, on 32-bit words
      carried by [N] with the wrap-around written out. *)

From Stdlib Require Import NArith ZArith List Ascii String Lia ZifyNat ZifyN.
From stdpp Require Import gmap strings list fin_maps.

Local Open Scope N_scope.

(** ** SHA-256 ([hashlib.sha256(...).hexdigest()]) *)

Module Sha256.

Definition wrap32 (x : N) : N := x mod 2 ^ 32.
Definition add32 (x y : N) : N := wrap32 (x + y).
Definition not32 (x : N) : N := N.lxor x 0xffffffff.

Definition SHR (n x : N) : N := N.shiftr x n.
Definition ROTR (n x : N) : N :=
  N.lor (N.shiftr x n) (wrap32 (N.shiftl x (32 - n))).

Definition Ch (x y z : N) : N :=
  N.lxor (N.land x y) (N.land (not32 x) z).
Definition Maj (x y z : N) : N :=
  N.lxor (N.lxor (N.land x y) (N.land x z)) (N.land y z).
Definition Sigma0 (x : N) : N :=
  N.lxor (N.lxor (ROTR 2 x) (ROTR 13 x)) (ROTR 22 x).
Definition Sigma1 (x : N) : N :=
  N.lxor (N.lxor (ROTR 6 x) (ROTR 11 x)) (ROTR 25 x).
Definition sigma0 (x : N) : N :=
  N.lxor (N.lxor (ROTR 7 x) (ROTR 18 x)) (SHR 3 x).
Definition sigma1 (x : N) : N :=
  N.lxor (N.lxor (ROTR 17 x) (ROTR 19 x)) (SHR 10 x).

(** The round constants and the initial hash value are the first 32 bits of
    the fractional parts of the cube roots, respectively square roots, of
    the first primes (FIPS 180-4, 4.2.2 and 5.3.3). *)
Definition primes : list N :=
  [ 2; 3; 5; 7; 11; 13; 17; 19; 23; 29; 31; 37; 41; 43; 47; 53; 59; 61; 67;
    71; 73; 79; 83; 89; 97; 101; 103; 107; 109; 113; 127; 131; 137; 139; 149;
    151; 157; 163; 167; 173; 179; 181; 191; 193; 197; 199; 211; 223; 227; 229;
    233; 239; 241; 251; 257; 263; 269; 271; 277; 281; 283; 293; 307; 311 ].

(** Largest [x] below [2 ^ bits] with [fits x], for a downward-closed [fits]. *)
Fixpoint largest (bits : nat) (fits : N → bool) (acc : N) : N :=
  match bits with
  | O => acc
  | S bits' =>
      let candidate := acc + 2 ^ N.of_nat bits' in
      largest bits' fits (if fits candidate then candidate else acc)
  end.

Definition frac_cube_root (p : N) : N :=
  wrap32 (largest 40 (λ x, x * x * x <=? p * 2 ^ 96) 0).

Definition frac_square_root (p : N) : N :=
  wrap32 (largest 40 (λ x, x * x <=? p * 2 ^ 64) 0).

Definition K : list N := Eval vm_compute in map frac_cube_root primes.

(** The eight working variables, also the shape of a hash value. *)
Record state : Set := State {
  va : N; vb : N; vc : N; vd : N; ve : N; vf : N; vg : N; vh : N
}.

Definition state_of_list (l : list N) : state :=
  State (nth 0 l 0) (nth 1 l 0) (nth 2 l 0) (nth 3 l 0)
        (nth 4 l 0) (nth 5 l 0) (nth 6 l 0) (nth 7 l 0).

Definition H0 : state :=
  Eval vm_compute in state_of_list (map frac_square_root (firstn 8 primes)).

(** Padding: a [0x80] byte, zero bytes up to 56 modulo 64, then the bit
    length as a 64-bit big-endian integer. *)
Definition be_bytes (count : nat) (x : N) : list N :=
  map (fun i => N.shiftr x (8 * N.of_nat i) mod 256) (rev (seq 0 count)).

Definition zero_pad (len : N) : nat :=
  N.to_nat ((119 - len mod 64) mod 64).

Definition pad (msg : list N) : list N :=
  let len := N.of_nat (List.length msg) in
  msg ++ 0x80 :: repeat 0 (zero_pad len) ++ be_bytes 8 ((8 * len) mod 2 ^ 64).

Definition be_word (bs : list N) : N :=
  fold_left (fun acc b => 256 * acc + b) bs 0.

(** [chunks size n l]: the first [n] consecutive slices of [size] items. *)
Fixpoint chunks {A} (size n : nat) (l : list A) : list (list A) :=
  match n with
  | O => []
  | S n' => firstn size l :: chunks size n' (skipn size l)
  end.

Definition block_words (block : list N) : list N :=
  map be_word (chunks 4 16 block).

(** Message schedule, built newest-first: [W_t] from [W_(t-2)], [W_(t-7)],
    [W_(t-15)] and [W_(t-16)]. *)
Definition next_W (rw : list N) : N :=
  add32 (add32 (sigma1 (nth 1 rw 0)) (nth 6 rw 0))
        (add32 (sigma0 (nth 14 rw 0)) (nth 15 rw 0)).

Fixpoint extend (n : nat) (rw : list N) : list N :=
  match n with
  | O => rw
  | S n' => extend n' (next_W rw :: rw)
  end.

Definition schedule (m : list N) : list N := rev (extend 48 (rev m)).

Definition round (s : state) (kw : N * N) : state :=
  let T1 := add32 (add32 (add32 (vh s) (Sigma1 (ve s)))
                         (add32 (Ch (ve s) (vf s) (vg s)) (fst kw)))
                  (snd kw) in
  let T2 := add32 (Sigma0 (va s)) (Maj (va s) (vb s) (vc s)) in
  State (add32 T1 T2) (va s) (vb s) (vc s)
        (add32 (vd s) T1) (ve s) (vf s) (vg s).

Definition compress (h : state) (block : list N) : state :=
  let s := fold_left round (combine K (schedule (block_words block))) h in
  State (add32 (va h) (va s)) (add32 (vb h) (vb s))
        (add32 (vc h) (vc s)) (add32 (vd h) (vd s))
        (add32 (ve h) (ve s)) (add32 (vf h) (vf s))
        (add32 (vg h) (vg s)) (add32 (vh h) (vh s)).

Definition digest (msg : list N) : state :=
  let padded := pad msg in
  fold_left compress (chunks 64 (List.length padded / 64) padded) H0.

(** [hexdigest]: two lowercase hexadecimal digits per digest byte. *)
Definition hex_digit (n : N) : ascii :=
  match n with
  | 0 => "0" | 1 => "1" | 2 => "2" | 3 => "3" | 4 => "4" | 5 => "5"
  | 6 => "6" | 7 => "7" | 8 => "8" | 9 => "9" | 10 => "a" | 11 => "b"
  | 12 => "c" | 13 => "d" | 14 => "e" | _ => "f"
  end%char.

Definition hex_byte (b : N) : list ascii :=
  [hex_digit (b / 16 mod 16); hex_digit (b mod 16)].

Definition digest_bytes (h : state) : list N :=
  flat_map (be_bytes 4) [va h; vb h; vc h; vd h; ve h; vf h; vg h; vh h].

Definition hexdigest (msg : list N) : string :=
  string_of_list_ascii (flat_map hex_byte (digest_bytes (digest msg))).

End Sha256.

(** [pw.encode("utf-8")]: the bytes of the string. *)
Definition encode_utf8 (s : string) : list N :=
  map N_of_ascii (list_ascii_of_string s).

Definition _hash_password (pw : string) : string :=
  Sha256.hexdigest (encode_utf8 pw).

(** ** Python strings and dictionaries *)

(** [str.lower()] on strings whose cased characters are all ASCII letters:
    [A]-[Z] go to [a]-[z], every other byte is kept. *)
Definition lower_char (c : ascii) : ascii :=
  let n := N_of_ascii c in
  if (65 <=? n) && (n <=? 90) then ascii_of_N (n + 32) else c.

Fixpoint lower (s : string) : string :=
  match s with
  | EmptyString => EmptyString
  | String c s' => String (lower_char c) (lower s')
  end.

(** [len(s)]: the number of code points, i.e. of bytes that are not
    continuation bytes [10xxxxxx]. *)
Definition is_continuation (c : ascii) : bool :=
  N.land (N_of_ascii c) 0xC0 =? 0x80.

Fixpoint len (s : string) : nat :=
  match s with
  | EmptyString => O
  | String c s' => if is_continuation c then len s' else S (len s')
  end.

(** [Dict[str, str]] and the type of [_USERS]. *)
Abbreviation dict := (gmap string string).
Abbreviation USERS := (gmap string (gmap string string)).

(** ** Exceptions and handlers *)

Inductive exn : Type :=
| HTTPException (status_code : Z) (detail : string)
| KeyError (key : string)
| RequestValidationError.

Inductive outcome (A : Type) : Type :=
| Returns (a : A)
| Raises (e : exn).
Arguments Returns {A} a.
Arguments Raises {A} e.

(** A handler runs against the module-level [_USERS] and leaves it in a new
    state, whether it returns or raises. *)
Definition Handler (A : Type) : Type := USERS → outcome A * USERS.

Global Instance Handler_ret : MRet Handler :=
  λ A a users, (Returns a, users).

Global Instance Handler_bind : MBind Handler :=
  λ A B k m users,
    match m users with
    | (Returns a, users') => k a users'
    | (Raises e, users') => (Raises e, users')
    end.

Definition raise {A} (e : exn) : Handler A := λ users, (Raises e, users).

(** [key in _USERS], [_USERS.get(key)], [_USERS[key] = value]. *)
Definition USERS_contains (key : string) : Handler bool :=
  λ users, (Returns (bool_decide (is_Some (users !! key))), users).

Definition USERS_get (key : string) : Handler (option dict) :=
  λ users, (Returns (users !! key), users).

Definition USERS_setitem (key : string) (value : dict) : Handler unit :=
  λ users, (Returns tt, <[key := value]> users).

(** [d[key]] raises [KeyError] on a missing key. *)
Definition getitem (d : dict) (key : string) : Handler string :=
  match d !! key with
  | Some v => mret v
  | None => raise (KeyError key)
  end.

(** Truth value of an [Optional[Dict]]: [None] and the empty dict are falsy. *)
Definition truthy (o : option dict) : bool :=
  match o with
  | None => false
  | Some d => negb (bool_decide (d = ∅))
  end.

(** ** Request and response models *)

Module RegisterRequest.
Record t : Type := make { name : string; email : string; password : string }.
End RegisterRequest.

Module LoginRequest.
Record t : Type := make { email : string; password : string }.
End LoginRequest.

Module RegisterResponse.
Record t : Type := make { message : string; user : dict }.
End RegisterResponse.

Module LoginResponse.
Record t : Type := make { message : string; user : dict }.
End LoginResponse.

(** ** The endpoints *)

Definition health_check : Handler dict :=
  mret {[ "message" := "Healthy" ]}.

Definition user_already_exists : exn := HTTPException 400 "User already exists".
Definition user_not_found : exn := HTTPException 404 "User not found".
Definition invalid_credentials : exn := HTTPException 401 "Invalid credentials".

(** A user record: the three attributes, and nothing else. *)
Definition user_record (name email password_hash : string) : dict :=
  {[ "name" := name; "email" := email; "password_hash" := password_hash ]}.

Section Endpoints.
(** [str.lower()] *)
Variable str_lower : string → string.

Definition register_user (payload : RegisterRequest.t)
  : Handler RegisterResponse.t :=
  let email := str_lower (RegisterRequest.email payload) in
  present ← USERS_contains email;
  if (present : bool) then raise user_already_exists
  else
    USERS_setitem email
      {[ "name" := RegisterRequest.name payload;
         "email" := email;
         "password_hash" := _hash_password (RegisterRequest.password payload) ]};;
    mret (RegisterResponse.make "User registered"
            {[ "name" := RegisterRequest.name payload; "email" := email ]}).

Definition login_user (payload : LoginRequest.t) : Handler LoginResponse.t :=
  let email := str_lower (LoginRequest.email payload) in
  user ← USERS_get email;
  if negb (truthy user) then raise user_not_found
  else
    match user with
    | Some user =>
        stored ← getitem user "password_hash";
        if bool_decide (stored ≠ _hash_password (LoginRequest.password payload))
        then raise invalid_credentials
        else
          name ← getitem user "name";
          mret (LoginResponse.make "Login successful"
                  {[ "name" := name; "email" := email ]})
    | None => raise user_not_found (* not reached: [None] is falsy *)
    end.

(** ** Schema validation in front of the endpoints

    The request models are pydantic models: every field is required
    ([Field(...)]), [email] goes through [EmailStr], which validates and
    normalises the address, and [password] of a register request carries
    [min_length=6].  The address validator is a library of its own and is a
    parameter here.  A body that fails validation never reaches the
    endpoint function. *)

(** [Field(...)] on a [str] field: required, with an optional [min_length]. *)
Definition Field (min_length : option nat) (value : string) : option string :=
  match min_length with
  | Some n => if decide (n ≤ len value)%nat then Some value else None
  | None => Some value
  end.

Section Validation.
Variable EmailStr : string → option string.

Definition RegisterRequest_validate (body : dict) : option RegisterRequest.t :=
  name ← body !! "name" ≫= Field None;
  email ← body !! "email" ≫= EmailStr;
  password ← body !! "password" ≫= Field (Some 6%nat);
  Some (RegisterRequest.make name email password).

Definition LoginRequest_validate (body : dict) : option LoginRequest.t :=
  email ← body !! "email" ≫= EmailStr;
  password ← body !! "password" ≫= Field None;
  Some (LoginRequest.make email password).

Definition post_register (body : dict) : Handler RegisterResponse.t :=
  match RegisterRequest_validate body with
  | Some payload => register_user payload
  | None => raise RequestValidationError
  end.

Definition post_login (body : dict) : Handler LoginResponse.t :=
  match LoginRequest_validate body with
  | Some payload => login_user payload
  | None => raise RequestValidationError
  end.
End Validation.

(** ** Sequences of operations on the store *)

Inductive call : Type :=
| HealthCheck
| Register (payload : RegisterRequest.t)
| Login (payload : LoginRequest.t).

(** The store after one operation, whatever its outcome. *)
Definition exec (c : call) (users : USERS) : USERS :=
  match c with
  | HealthCheck => (health_check users).2
  | Register payload => (register_user payload users).2
  | Login payload => (login_user payload users).2
  end.

Definition run (calls : list call) (users : USERS) : USERS :=
  fold_left (λ u c, exec c u) calls users.

(** [registers key c]: [c] is a Register call for the normalized email [key]. *)
Definition registers (key : string) (c : call) : Prop :=
  match c with
  | Register payload => str_lower (RegisterRequest.email payload) = key
  | _ => False
  end.

(** The record a Register call stores when it succeeds. *)
Definition record_of (payload : RegisterRequest.t) : dict :=
  user_record (RegisterRequest.name payload)
              (str_lower (RegisterRequest.email payload))
              (_hash_password (RegisterRequest.password payload)).

(** The first Register call of a sequence for the normalized email [key]. *)
Fixpoint first_register (key : string) (calls : list call)
  : option RegisterRequest.t :=
  match calls with
  | [] => None
  | Register payload :: calls' =>
      if decide (str_lower (RegisterRequest.email payload) = key)
      then Some payload
      else first_register key calls'
  | _ :: calls' => first_register key calls'
  end.

(** ** The data model of the store *)

(** Every record sits under its own email, and that key is a lowercased
    email. *)
Definition store_inv (users : USERS) : Prop :=
  ∀ key user, users !! key = Some user →
    ∃ email name password_hash,
      key = str_lower email ∧ user = user_record name key password_hash.

End Endpoints.

Definition is_hex (c : ascii) : bool :=
  let n := N_of_ascii c in
  ((48 <=? n) && (n <=? 57)) || ((97 <=? n) && (n <=? 102)).

(** ** The end-to-end scenario of the specification *)

Definition ann : RegisterRequest.t :=
  RegisterRequest.make "Ann" "ann@x.com" "secret1".

Definition ann2 : RegisterRequest.t :=
  RegisterRequest.make "Ann2" "ann@x.com" "other1".

(** The store once Ann is registered. *)
Definition ann_store : USERS :=
  {[ "ann@x.com" := user_record "Ann" "ann@x.com" (_hash_password "secret1") ]}.

(** A register body with an empty name, and the address validator on an
    address that is valid and already in normal form: it is returned as is. *)
Definition empty_name_body : dict :=
  {[ "name" := ""; "email" := "ann@x.com"; "password" := "secret1" ]}.

Definition short_password_body : dict :=
  {[ "name" := "Ann"; "email" := "ann@x.com"; "password" := "12345" ]}.

Definition EmailStr_normal (address : string) : option string := Some address.

(** ** Process environment and CORS configuration *)

(** [os.getenv(key, default)]: the environment is a dictionary. *)
Definition getenv (environ : dict) (key default : string) : string :=
  match environ !! key with
  | Some value => value
  | None => default
  end.

(** [str.strip()] removes whitespace characters from both ends.  The
    characters are listed as code points and looked for in the string
    under their UTF-8 encoding. *)

(** UTF-8 encoding of a code point. *)
Definition utf8_char (c : N) : list ascii :=
  if c <? 0x80 then [ascii_of_N c]
  else if c <? 0x800 then
    [ascii_of_N (0xC0 + c / 64); ascii_of_N (0x80 + c mod 64)]
  else if c <? 0x10000 then
    [ascii_of_N (0xE0 + c / 4096); ascii_of_N (0x80 + c / 64 mod 64);
     ascii_of_N (0x80 + c mod 64)]
  else
    [ascii_of_N (0xF0 + c / 262144); ascii_of_N (0x80 + c / 4096 mod 64);
     ascii_of_N (0x80 + c / 64 mod 64); ascii_of_N (0x80 + c mod 64)].

(** The code points [str.strip()] removes: those for which [str.isspace]
    holds. *)
Definition whitespace_code_points : list N :=
  [ 0x9; 0xA; 0xB; 0xC; 0xD; 0x1C; 0x1D; 0x1E; 0x1F; 0x20; 0x85; 0xA0;
    0x1680; 0x2000; 0x2001; 0x2002; 0x2003; 0x2004; 0x2005; 0x2006; 0x2007;
    0x2008; 0x2009; 0x200A; 0x2028; 0x2029; 0x202F; 0x205F; 0x3000 ].

Definition whitespace : list (list ascii) :=
  map utf8_char whitespace_code_points.

(** [drop_prefix p l]: what follows [p] in [l], when [l] starts with [p]. *)
Fixpoint drop_prefix (p l : list ascii) : option (list ascii) :=
  match p, l with
  | [], _ => Some l
  | a :: p', b :: l' => if Ascii.eqb a b then drop_prefix p' l' else None
  | _ :: _, [] => None
  end.

(** [drop_first ps l]: [l] without the first of the [ps] it starts with. *)
Fixpoint drop_first (ps : list (list ascii)) (l : list ascii)
  : option (list ascii) :=
  match ps with
  | [] => None
  | p :: ps' =>
      match drop_prefix p l with
      | Some rest => Some rest
      | None => drop_first ps' l
      end
  end.

(** Remove leading [ps] for as long as there is one; [fuel] bounds the
    number of rounds and the length of [l] is enough. *)
Fixpoint drop_leading (ps : list (list ascii)) (fuel : nat) (l : list ascii)
  : list ascii :=
  match fuel with
  | O => l
  | S fuel' =>
      match drop_first ps l with
      | Some rest => drop_leading ps fuel' rest
      | None => l
      end
  end.

Definition lstrip_chars (l : list ascii) : list ascii :=
  drop_leading whitespace (List.length l) l.

Definition rstrip_chars (l : list ascii) : list ascii :=
  rev (drop_leading (map (@rev ascii) whitespace) (List.length l) (rev l)).

(** [s.strip()] *)
Definition strip (s : string) : string :=
  string_of_list_ascii (rstrip_chars (lstrip_chars (list_ascii_of_string s))).

(** [s.split(sep)] for a one-character separator: [""] splits into [[""]]
    and consecutive separators give empty pieces. *)
Fixpoint str_split (sep : ascii) (s : string) : list string :=
  match s with
  | EmptyString => [EmptyString]
  | String c s' =>
      if Ascii.eqb c sep then EmptyString :: str_split sep s'
      else match str_split sep s' with
           | piece :: pieces => String c piece :: pieces
           | [] => [String c EmptyString]
           end
  end.

(** Truth value of a [str]: only the empty string is falsy. *)
Definition nonempty (s : string) : bool :=
  match s with
  | EmptyString => false
  | String _ _ => true
  end.

Definition localhost_origin : string := "http://localhost:3000".

Definition default_origins : list string :=
  [ localhost_origin;
    "https://vscode-internal-10297-beta.beta01.cloud.kavia.ai:3000" ].

Definition get_allowed_origins_from_env (environ : dict) : list string :=
  let raw := getenv environ "BACKEND_CORS_ORIGINS" "" in
  let origins :=
    map strip (List.filter (λ o, nonempty (strip o)) (str_split "," raw)) in
  match origins with
  | [] => default_origins
  | _ :: _ => origins
  end.

(** [list(set(... + ["http://localhost:3000"]))]: a duplicate-free list in
    an order the language leaves open; it is used for membership only and is
    carried as a set. *)
Definition cors_origins (environ : dict) : gset string :=
  list_to_set (get_allowed_origins_from_env environ ++ [localhost_origin]).

Definition allow_credentials_env (environ : dict) : bool :=
  bool_decide (lower (getenv environ "BACKEND_CORS_CREDENTIALS" "false")
               ∈ ["1"; "true"; "yes"]).

(** [no_char c s]: the character [c] does not occur in [s]. *)
Fixpoint no_char (c : ascii) (s : string) : Prop :=
  match s with
  | EmptyString => True
  | String c' s' => c' ≠ c ∧ no_char c s'
  end.

(** [proper_prefix p q]: [q] starts with [p] and is longer. *)
Definition proper_prefix (p q : list ascii) : bool :=
  match drop_prefix p q with
  | Some (_ :: _) => true
  | _ => false
  end.

(** [spaces l]: [l] is a sequence of whitespace characters. *)
Inductive spaces : list ascii → Prop :=
| spaces_nil : spaces []
| spaces_cons w l : w ∈ whitespace → spaces l → spaces (w ++ l).

(** [blank l]: [l] is made of commas and whitespace characters only. *)
Inductive blank : list ascii → Prop :=
| blank_nil : blank []
| blank_comma l : blank l → blank (","%char :: l)
| blank_space w l : w ∈ whitespace → blank l → blank (w ++ l).

(** [plain c]: the byte [c] neither begins nor ends a whitespace
    character. *)
Definition begins (c : ascii) (p : list ascii) : bool :=
  match p with
  | a :: _ => Ascii.eqb a c
  | [] => true
  end.

Definition plain (c : ascii) : bool :=
  negb (existsb (begins c) (whitespace ++ map (@rev ascii) whitespace)).

(** [spaceless s]: every byte of [s] is plain. *)
Fixpoint spaceless (s : string) : Prop :=
  match s with
  | EmptyString => True
  | String c s' => plain c = true ∧ spaceless s'
  end.

(** What every configured origin looks like: not empty, nothing left to
    strip, and no comma inside. *)
Definition clean_origin (o : string) : Prop :=
  o ≠ "" ∧ strip o = o ∧ no_char "," o.

(** [in_range h]: the eight words of [h] are 32-bit words. *)
Definition in_range (h : Sha256.state) : Prop :=
  Sha256.va h < 2 ^ 32 ∧ Sha256.vb h < 2 ^ 32 ∧ Sha256.vc h < 2 ^ 32
  ∧ Sha256.vd h < 2 ^ 32 ∧ Sha256.ve h < 2 ^ 32 ∧ Sha256.vf h < 2 ^ 32
  ∧ Sha256.vg h < 2 ^ 32 ∧ Sha256.vh h < 2 ^ 32.

(** ** Reading a sequence of calls *)

Definition is_register (c : call) : bool :=
  match c with
  | Register _ => true
  | _ => false
  end.

(** An environment that lists two origins, with blanks (a no-break space
    and an ideographic space among them) and an empty entry. *)
Definition listing_environ : dict :=
  {[ "BACKEND_CORS_ORIGINS" :=
       "  https://a.example　, ,https://b.example" ]}.

(** An environment whose list of origins is blank. *)
Definition blank_environ : dict :=
  {[ "BACKEND_CORS_ORIGINS" := " , ,　" ]}.

(** * Properties *)

(** ** The digest on known inputs *)

Example K_ends : nth 0 Sha256.K 0 = 0x428a2f98 ∧ nth 63 Sha256.K 0 = 0xc67178f2.
Proof. split; reflexivity. Qed.

Example H0_ends :
  Sha256.va Sha256.H0 = 0x6a09e667 ∧ Sha256.vh Sha256.H0 = 0x5be0cd19.
Proof. split; reflexivity. Qed.

Example sha_empty : _hash_password "" =
  "e3b0c44298fc1c149afbf4c8996fb92427ae41e4649b934ca495991b7852b855".
Proof. vm_compute. reflexivity. Qed.

Example sha_abc : _hash_password "abc" =
  "ba7816bf8f01cfea414140de5dae2223b00361a396177a9cb410ff61f20015ad".
Proof. vm_compute. reflexivity. Qed.

Example sha_secret1 : _hash_password "secret1" =
  "5b11618c2e44027877d0cd0921ed166b9f176f50587fc91e7534dd2946db77d6".
Proof. vm_compute. reflexivity. Qed.

Example sha_two_blocks :
  _hash_password "abcdbcdecdefdefgefghfghighijhijkijkljklmklmnlmnomnopnopq" =
  "248d6a61d20638b8e5c026930c3e6039a33ce45964ff2167f6ecedd419db06c1".
Proof. vm_compute. reflexivity. Qed.

Example sha_a55 : _hash_password
  "aaaaaaaaaaaaaaaaaaaaaaaaaaaaaaaaaaaaaaaaaaaaaaaaaaaaaaa" =
  "9f4390f8d30c2dd92ec9f095b65e2b9ae9b0a925a5258e241c9f1e910f734318".
Proof. vm_compute. reflexivity. Qed.

Example sha_a56 : _hash_password
  "aaaaaaaaaaaaaaaaaaaaaaaaaaaaaaaaaaaaaaaaaaaaaaaaaaaaaaaa" =
  "b35439a4ac6f0948b6d6f9e3c6af0f5f590ce20f1bde7090ef7970686ec6738a".
Proof. vm_compute. reflexivity. Qed.

Example sha_utf8 : _hash_password "pässwörd" =
  "46970bef70aced8123f0d5d094717e2a5cd412041e03b26376049fe65b2834a4".
Proof. vm_compute. reflexivity. Qed.

Example lower_mixed : lower "User@Example.COM" = "user@example.com".
Proof. reflexivity. Qed.

Example len_ascii : len "secret1" = 7%nat.
Proof. reflexivity. Qed.

Example len_utf8 : len "pässwörd" = 8%nat.
Proof. reflexivity. Qed.

(** ** Strings *)

Lemma lower_char_idemp c : lower_char (lower_char c) = lower_char c.
Proof. destruct c as [[] [] [] [] [] [] [] []]; reflexivity. Qed.

Lemma lower_idemp s : lower (lower s) = lower s.
Proof.
  induction s as [|c s IH]; simpl; [reflexivity|].
  rewrite lower_char_idemp, IH. reflexivity.
Qed.

Lemma length_string_of_list_ascii l :
  String.length (string_of_list_ascii l) = List.length l.
Proof. induction l as [|c l IH]; simpl; congruence. Qed.

Lemma hex_not_continuation c : is_hex c = true → is_continuation c = false.
Proof.
  destruct c as [[] [] [] [] [] [] [] []]; vm_compute; intros Hhex; congruence.
Qed.

Lemma len_of_hex l :
  Forall (λ c, is_hex c = true) l →
  len (string_of_list_ascii l) = List.length l.
Proof.
  induction 1 as [|c l Hc _ IH]; simpl; [reflexivity|].
  rewrite (hex_not_continuation c Hc), IH. reflexivity.
Qed.

(** ** The digest is 32 bytes, rendered as 64 hexadecimal digits *)

Module Sha256Facts.
Import Sha256.

Lemma hex_digit_is_hex n : is_hex (hex_digit n) = true.
Proof.
  destruct n as [|p]; [reflexivity|].
  do 4 (try (destruct p as [p|p|]; try reflexivity)).
Qed.

Lemma hex_byte_is_hex b : Forall (λ c, is_hex c = true) (hex_byte b).
Proof. repeat constructor; apply hex_digit_is_hex. Qed.

Lemma length_digest_bytes h : List.length (digest_bytes h) = 32%nat.
Proof. destruct h; reflexivity. Qed.

Lemma length_hex_bytes bs :
  List.length (flat_map hex_byte bs) = (2 * List.length bs)%nat.
Proof. induction bs as [|b bs IH]; simpl; [reflexivity|]. rewrite IH. lia. Qed.

Lemma hex_bytes_are_hex bs :
  Forall (λ c, is_hex c = true) (flat_map hex_byte bs).
Proof.
  induction bs as [|b bs IH]; simpl; [constructor|].
  repeat constructor; try apply hex_digit_is_hex. exact IH.
Qed.

Lemma hexdigest_chars msg :
  list_ascii_of_string (hexdigest msg) =
  flat_map hex_byte (digest_bytes (digest msg)).
Proof. apply list_ascii_of_string_of_list_ascii. Qed.

Lemma hexdigest_length msg : String.length (hexdigest msg) = 64%nat.
Proof.
  unfold hexdigest.
  rewrite length_string_of_list_ascii, length_hex_bytes, length_digest_bytes.
  reflexivity.
Qed.

(** Each digest byte is a byte, so the two digits render it exactly. *)
Lemma digest_bytes_range h : Forall (λ b, b < 256) (digest_bytes h).
Proof.
  destruct h. unfold digest_bytes, be_bytes. simpl.
  repeat constructor; apply N.mod_lt; discriminate.
Qed.
End Sha256Facts.

(** ** Password hashing *)

(** C8. [_hash_password] is a function of the password alone: hashing the
    same string twice gives the same digest.  The digest is 256 bits (32
    bytes), rendered as a string of exactly 64 characters, each of them a
    lowercase hexadecimal digit. *)
Theorem hash_password_digest (p : string) :
  _hash_password p = _hash_password p
  ∧ List.length (Sha256.digest_bytes (Sha256.digest (encode_utf8 p))) = 32%nat
  ∧ Forall (λ b, b < 256) (Sha256.digest_bytes (Sha256.digest (encode_utf8 p)))
  ∧ String.length (_hash_password p) = 64%nat
  ∧ len (_hash_password p) = 64%nat
  ∧ Forall (λ c, is_hex c = true) (list_ascii_of_string (_hash_password p)).
Proof.
  unfold _hash_password.
  split; [reflexivity|]. split; [|split; [|split; [|split]]].
  - apply Sha256Facts.length_digest_bytes.
  - apply Sha256Facts.digest_bytes_range.
  - apply Sha256Facts.hexdigest_length.
  - unfold Sha256.hexdigest.
    rewrite len_of_hex by apply Sha256Facts.hex_bytes_are_hex.
    rewrite Sha256Facts.length_hex_bytes, Sha256Facts.length_digest_bytes.
    reflexivity.
  - rewrite Sha256Facts.hexdigest_chars. apply Sha256Facts.hex_bytes_are_hex.
Qed.

(** ** The service, for every lowercasing function *)

Section ServiceFacts.
Variable str_lower : string → string.

(** ** The endpoints as functions of the store *)

Lemma user_record_nonempty name email h : user_record name email h ≠ ∅.
Proof. unfold user_record. apply insert_non_empty. Qed.

Lemma user_record_name name email h : user_record name email h !! "name" = Some name.
Proof. reflexivity. Qed.

Lemma user_record_email name email h : user_record name email h !! "email" = Some email.
Proof. reflexivity. Qed.

Lemma user_record_hash name email h :
  user_record name email h !! "password_hash" = Some h.
Proof. reflexivity. Qed.

Lemma register_user_unfold payload users :
  register_user str_lower payload users =
  let email := str_lower (RegisterRequest.email payload) in
  match users !! email with
  | Some _ => (Raises user_already_exists, users)
  | None =>
      (Returns (RegisterResponse.make "User registered"
                  {[ "name" := RegisterRequest.name payload; "email" := email ]}),
       <[email := user_record (RegisterRequest.name payload) email
                    (_hash_password (RegisterRequest.password payload))]> users)
  end.
Proof.
  unfold register_user, mbind, Handler_bind, USERS_contains, USERS_setitem,
    mret, Handler_ret, raise.
  simpl. destruct (users !! str_lower (RegisterRequest.email payload)); reflexivity.
Qed.

Lemma login_user_unfold payload users :
  login_user str_lower payload users =
  let email := str_lower (LoginRequest.email payload) in
  (match users !! email with
   | None => Raises user_not_found
   | Some user =>
       if bool_decide (user = ∅) then Raises user_not_found
       else match user !! "password_hash" with
            | None => Raises (KeyError "password_hash")
            | Some stored =>
                if bool_decide (stored = _hash_password (LoginRequest.password payload))
                then match user !! "name" with
                     | None => Raises (KeyError "name")
                     | Some name =>
                         Returns (LoginResponse.make "Login successful"
                                    {[ "name" := name; "email" := email ]})
                     end
                else Raises invalid_credentials
            end
   end, users).
Proof.
  unfold login_user, mbind, Handler_bind, USERS_get, getitem, truthy,
    mret, Handler_ret, raise.
  simpl. destruct (users !! str_lower (LoginRequest.email payload)) as [user|];
    [|reflexivity].
  destruct (bool_decide (user = ∅)); simpl; [reflexivity|].
  destruct (user !! "password_hash") as [stored|]; simpl; [|reflexivity].
  rewrite bool_decide_not.
  destruct (bool_decide (stored = _)); simpl; [|reflexivity].
  destruct (user !! "name"); reflexivity.
Qed.

Lemma exec_register payload users :
  exec str_lower (Register payload) users =
  let email := str_lower (RegisterRequest.email payload) in
  match users !! email with
  | Some _ => users
  | None => <[email := user_record (RegisterRequest.name payload) email
                         (_hash_password (RegisterRequest.password payload))]> users
  end.
Proof.
  unfold exec. rewrite register_user_unfold. simpl.
  destruct (users !! str_lower (RegisterRequest.email payload)); reflexivity.
Qed.

Lemma exec_login payload users : exec str_lower (Login payload) users = users.
Proof. unfold exec. rewrite login_user_unfold. reflexivity. Qed.

Lemma exec_health users : exec str_lower HealthCheck users = users.
Proof. reflexivity. Qed.

Lemma run_cons c calls users : run str_lower (c :: calls) users = run str_lower calls (exec str_lower c users).
Proof. reflexivity. Qed.

Lemma run_app calls1 calls2 users :
  run str_lower (calls1 ++ calls2) users = run str_lower calls2 (run str_lower calls1 users).
Proof. unfold run. apply fold_left_app. Qed.

(** ** Register *)

(** C1. Register on an email whose lowercased form is already a key of the
    store raises the duplicate-user error (HTTP 400), whatever the name and
    the password of the request, and leaves the store as it was. *)
Theorem register_duplicate_fails (users : USERS) (name email password : string) :
  is_Some (users !! str_lower email) →
  register_user str_lower (RegisterRequest.make name email password) users
  = (Raises user_already_exists, users).
Proof.
  intros [user Huser]. rewrite register_user_unfold. simpl.
  rewrite Huser. reflexivity.
Qed.

(** C2. Register on an email whose lowercased form is absent succeeds: the
    store gains exactly the record [{name, email, password_hash}] under the
    lowercased email, and the response carries the two fields [name] and
    [email] only -- no [password] or [password_hash] field -- and does not
    depend on the password. *)
Theorem register_fresh_succeeds (users : USERS) (name email password : string) :
  users !! str_lower email = None →
  register_user str_lower (RegisterRequest.make name email password) users
  = (Returns (RegisterResponse.make "User registered"
                {[ "name" := name; "email" := str_lower email ]}),
     <[str_lower email := user_record name (str_lower email) (_hash_password password)]> users)
  ∧ dom ({[ "name" := name; "email" := str_lower email ]} : dict)
    = ({[ "name"; "email" ]} : gset string)
  ∧ ({[ "name" := name; "email" := str_lower email ]} : dict) !! "password" = None
  ∧ ({[ "name" := name; "email" := str_lower email ]} : dict) !! "password_hash" = None
  ∧ ∀ password',
      (register_user str_lower (RegisterRequest.make name email password') users).1
      = (register_user str_lower (RegisterRequest.make name email password) users).1.
Proof.
  intros Hfresh. split; [|split; [|split; [|split]]].
  - rewrite register_user_unfold. simpl. rewrite Hfresh. reflexivity.
  - rewrite dom_insert_L, dom_singleton_L. reflexivity.
  - reflexivity.
  - reflexivity.
  - intros password'. rewrite !register_user_unfold. simpl.
    rewrite Hfresh. reflexivity.
Qed.

(** ** Login *)

(** Register calls for other emails leave a key absent. *)
Lemma exec_lookup_None key c users :
  users !! key = None → ¬ registers str_lower key c → exec str_lower c users !! key = None.
Proof.
  intros Hnone Hc. destruct c as [|payload|payload].
  - rewrite exec_health. exact Hnone.
  - rewrite exec_register. simpl in *.
    destruct (users !! str_lower (RegisterRequest.email payload)); [exact Hnone|].
    rewrite lookup_insert_ne; [exact Hnone|exact Hc].
  - rewrite exec_login. exact Hnone.
Qed.

Lemma run_lookup_None key calls : ∀ users,
  users !! key = None → Forall (λ c, ¬ registers str_lower key c) calls →
  run str_lower calls users !! key = None.
Proof.
  induction calls as [|c calls IH]; intros users Hnone Hcalls; [exact Hnone|].
  rewrite run_cons. apply Forall_cons in Hcalls as [Hc Hcalls].
  apply IH; [|exact Hcalls]. apply exec_lookup_None; assumption.
Qed.

Lemma login_user_absent payload users :
  users !! str_lower (LoginRequest.email payload) = None →
  login_user str_lower payload users = (Raises user_not_found, users).
Proof. intros Hnone. rewrite login_user_unfold. simpl. rewrite Hnone. reflexivity. Qed.

(** C4. Login on an email whose lowercased form is not a key of the store
    raises the not-found error (HTTP 404), and nothing else; the same holds
    after any sequence of operations that contains no Register for that
    email, so in particular from the empty store. *)
Theorem login_unknown_email (users : USERS) (email password : string) :
  users !! str_lower email = None →
  login_user str_lower (LoginRequest.make email password) users
  = (Raises user_not_found, users)
  ∧ ∀ calls, Forall (λ c, ¬ registers str_lower (str_lower email) c) calls →
      login_user str_lower (LoginRequest.make email password) (run str_lower calls users)
      = (Raises user_not_found, run str_lower calls users).
Proof.
  intros Hnone. split.
  - apply login_user_absent. exact Hnone.
  - intros calls Hcalls. apply login_user_absent. simpl.
    apply run_lookup_None; assumption.
Qed.

Lemma login_user_record users email password name stored :
  users !! str_lower email = Some (user_record name (str_lower email) stored) →
  login_user str_lower (LoginRequest.make email password) users
  = (if bool_decide (stored = _hash_password password)
     then Returns (LoginResponse.make "Login successful"
                     {[ "name" := name; "email" := str_lower email ]})
     else Raises invalid_credentials, users).
Proof.
  intros Huser. rewrite login_user_unfold. simpl. rewrite Huser.
  rewrite (bool_decide_eq_false_2 _ (user_record_nonempty _ _ _)).
  rewrite user_record_hash, user_record_name. reflexivity.
Qed.

(** C5. When the lowercased email is a key of the store, Login compares the
    hash of the supplied password with the stored [password_hash]: if they
    differ it raises the invalid-credentials error (HTTP 401); if they are
    equal it returns the [name] of the stored record together with the
    lowercased email, which is the key and, in a store that satisfies the
    invariant, the [email] of the stored record. *)
Theorem login_checks_password (users : USERS) (user : dict)
    (email password stored : string) :
  users !! str_lower email = Some user →
  user !! "password_hash" = Some stored →
  (stored ≠ _hash_password password →
   login_user str_lower (LoginRequest.make email password) users
   = (Raises invalid_credentials, users))
  ∧ (stored = _hash_password password →
     ∀ name, user !! "name" = Some name →
       login_user str_lower (LoginRequest.make email password) users
       = (Returns (LoginResponse.make "Login successful"
                     {[ "name" := name; "email" := str_lower email ]}), users))
  ∧ (store_inv str_lower users →
     user !! "email" = Some (str_lower email) ∧ is_Some (user !! "name")).
Proof.
  intros Huser Hstored.
  assert (Hne : user ≠ ∅).
  { intros ->. rewrite lookup_empty in Hstored. discriminate. }
  split; [|split].
  - intros Hcmp. rewrite login_user_unfold. simpl. rewrite Huser.
    rewrite (bool_decide_eq_false_2 _ Hne), Hstored.
    rewrite (bool_decide_eq_false_2 _ Hcmp). reflexivity.
  - intros Hcmp name Hname. rewrite login_user_unfold. simpl. rewrite Huser.
    rewrite (bool_decide_eq_false_2 _ Hne), Hstored.
    rewrite (bool_decide_eq_true_2 _ Hcmp), Hname. reflexivity.
  - intros Hinv. destruct (Hinv _ _ Huser) as (email' & name & h & _ & ->).
    split; [reflexivity|]. exists name. reflexivity.
Qed.

(** C7. Login never writes to the store: whether it returns or raises
    (not found, invalid credentials), the store after the call is the store
    before the call; a body rejected by validation does not write either. *)
Theorem login_read_only (users : USERS) (payload : LoginRequest.t) :
  (login_user str_lower payload users).2 = users
  ∧ ∀ EmailStr body, (post_login str_lower EmailStr body users).2 = users.
Proof.
  split.
  - rewrite login_user_unfold. reflexivity.
  - intros EmailStr body. unfold post_login.
    destruct (LoginRequest_validate EmailStr body) as [validated|].
    + rewrite login_user_unfold. reflexivity.
    + reflexivity.
Qed.

(** C3. Emails that agree after lowercasing are the same account: after a
    successful Register under [email1], Login under [email2] with the same
    password succeeds and returns the name and the lowercased email, the
    payload Register returned. *)
Theorem register_then_login (users users' : USERS)
    (name email1 email2 password : string) (resp : RegisterResponse.t) :
  str_lower email1 = str_lower email2 →
  register_user str_lower (RegisterRequest.make name email1 password) users
  = (Returns resp, users') →
  login_user str_lower (LoginRequest.make email2 password) users'
  = (Returns (LoginResponse.make "Login successful"
                {[ "name" := name; "email" := str_lower email1 ]}), users')
  ∧ RegisterResponse.user resp = {[ "name" := name; "email" := str_lower email1 ]}.
Proof.
  intros Hsame Hreg. rewrite register_user_unfold in Hreg. simpl in Hreg.
  destruct (users !! str_lower email1); [discriminate|].
  injection Hreg as <- <-. split; [|reflexivity].
  rewrite Hsame.
  rewrite (login_user_record _ email2 password name (_hash_password password)).
  - rewrite bool_decide_eq_true_2; reflexivity.
  - rewrite <- Hsame. apply lookup_insert_eq.
Qed.

(** ** The store invariant *)

Lemma store_inv_empty : store_inv str_lower ∅.
Proof. intros key user Hlook. rewrite lookup_empty in Hlook. discriminate. Qed.

Lemma exec_keeps_records c users key user :
  users !! key = Some user → exec str_lower c users !! key = Some user.
Proof.
  intros Hlook. destruct c as [|payload|payload].
  - rewrite exec_health. exact Hlook.
  - rewrite exec_register. simpl.
    destruct (users !! str_lower (RegisterRequest.email payload)) eqn:Hkey;
      [exact Hlook|].
    rewrite lookup_insert_ne; [exact Hlook|]. congruence.
  - rewrite exec_login. exact Hlook.
Qed.

Lemma exec_preserves_inv c users : store_inv str_lower users → store_inv str_lower (exec str_lower c users).
Proof.
  intros Hinv. destruct c as [|payload|payload].
  - rewrite exec_health. exact Hinv.
  - rewrite exec_register. simpl.
    destruct (users !! str_lower (RegisterRequest.email payload)) eqn:Hkey;
      [exact Hinv|].
    intros key user Hlook.
    destruct (decide (str_lower (RegisterRequest.email payload) = key)) as [<-|Hne].
    + rewrite lookup_insert_eq in Hlook. injection Hlook as <-.
      exists (RegisterRequest.email payload). eauto.
    + rewrite lookup_insert_ne in Hlook by exact Hne. exact (Hinv key user Hlook).
  - rewrite exec_login. exact Hinv.
Qed.

Lemma run_keeps_records calls : ∀ users key user,
  users !! key = Some user → run str_lower calls users !! key = Some user.
Proof.
  induction calls as [|c calls IH]; intros users key user Hlook; [exact Hlook|].
  rewrite run_cons. apply IH, exec_keeps_records, Hlook.
Qed.

Lemma run_preserves_inv calls : ∀ users,
  store_inv str_lower users → store_inv str_lower (run str_lower calls users).
Proof.
  induction calls as [|c calls IH]; intros users Hinv; [exact Hinv|].
  rewrite run_cons. apply IH, exec_preserves_inv, Hinv.
Qed.

Lemma store_inv_email users key user :
  store_inv str_lower users → users !! key = Some user →
  user !! "email" = Some key.
Proof.
  intros Hinv Hlook.
  destruct (Hinv key user Hlook) as (email & name & h & _ & ->). reflexivity.
Qed.

(** C6. The store invariant -- every record is keyed by its own lowercased
    email, one record per normalized email -- holds of the empty store and
    is kept by every operation (Register, Login, Health Check), hence by
    every sequence of them; and a record that is present stays present and
    unchanged through every later operation.  One record per normalized
    email: two records that carry the same email are the same record, and
    when lowercasing is idempotent, as [str.lower()] is, no two keys have
    the same lowercase form. *)
Theorem store_invariant_preserved (users : USERS) (calls : list call) :
  store_inv str_lower users →
  store_inv str_lower (run str_lower calls users)
  ∧ (∀ c, store_inv str_lower (exec str_lower c (run str_lower calls users)))
  ∧ (∀ key user, users !! key = Some user →
                 run str_lower calls users !! key = Some user)
  ∧ (∀ key1 key2 user1 user2,
       run str_lower calls users !! key1 = Some user1 →
       run str_lower calls users !! key2 = Some user2 →
       user1 !! "email" = user2 !! "email" → key1 = key2)
  ∧ ((∀ s, str_lower (str_lower s) = str_lower s) →
     ∀ key1 key2,
       is_Some (run str_lower calls users !! key1) →
       is_Some (run str_lower calls users !! key2) →
       str_lower key1 = str_lower key2 → key1 = key2).
Proof.
  intros Hinv. pose proof (run_preserves_inv calls users Hinv) as Hrun.
  split; [exact Hrun|]. split; [|split; [|split]].
  - intros c. apply exec_preserves_inv, Hrun.
  - intros key user. apply run_keeps_records.
  - intros key1 key2 user1 user2 H1 H2 Hsame.
    rewrite (store_inv_email _ _ _ Hrun H1), (store_inv_email _ _ _ Hrun H2) in Hsame.
    congruence.
  - intros Hidem key1 key2 [user1 H1] [user2 H2] Hsame.
    destruct (Hrun key1 user1 H1) as (email1 & _ & _ & -> & _).
    destruct (Hrun key2 user2 H2) as (email2 & _ & _ & -> & _).
    rewrite !Hidem in Hsame. exact Hsame.
Qed.

(** ** Schema validation *)

Lemma Field_min_length n value :
  Field (Some n) value = if decide (n ≤ len value)%nat then Some value else None.
Proof. reflexivity. Qed.

Lemma validate_short_password EmailStr body password :
  body !! "password" = Some password → (len password < 6)%nat →
  RegisterRequest_validate EmailStr body = None.
Proof.
  intros Hpw Hshort. unfold RegisterRequest_validate. rewrite Hpw. simpl.
  rewrite decide_False by lia.
  destruct (body !! "name" ≫= Field None); simpl; [|reflexivity].
  destruct (body !! "email" ≫= EmailStr); reflexivity.
Qed.

Lemma validate_accepts EmailStr body name email email' password :
  body !! "name" = Some name → body !! "email" = Some email →
  EmailStr email = Some email' →
  body !! "password" = Some password → (6 ≤ len password)%nat →
  RegisterRequest_validate EmailStr body
  = Some (RegisterRequest.make name email' password).
Proof.
  intros Hname Hemail Hvalid Hpw Hlong. unfold RegisterRequest_validate.
  rewrite Hname, Hemail, Hpw. simpl. rewrite Hvalid. simpl.
  rewrite decide_True by exact Hlong. reflexivity.
Qed.

(** C9, amended. A register body whose password has fewer than 6 characters
    is rejected by validation before [register_user] runs, and the store is
    untouched.  The name only has to be present: whatever it is, the empty
    string included, a body with a valid email and a password of at least 6
    characters is handed to [register_user]. *)
Theorem register_schema_validation (EmailStr : string → option string)
    (body : dict) (users : USERS) (password : string) :
  body !! "password" = Some password →
  ((len password < 6)%nat →
   post_register str_lower EmailStr body users = (Raises RequestValidationError, users))
  ∧ ((6 ≤ len password)%nat →
     ∀ name email email',
       body !! "name" = Some name → body !! "email" = Some email →
       EmailStr email = Some email' →
       post_register str_lower EmailStr body users
       = register_user str_lower (RegisterRequest.make name email' password) users).
Proof.
  intros Hpw. split.
  - intros Hshort. unfold post_register.
    rewrite (validate_short_password _ _ _ Hpw Hshort). reflexivity.
  - intros Hlong name email email' Hname Hemail Hvalid. unfold post_register.
    rewrite (validate_accepts _ _ _ _ _ _ Hname Hemail Hvalid Hpw Hlong).
    reflexivity.
Qed.

(** ** Sequences of calls *)

Lemma exec_register_present payload users :
  is_Some (exec str_lower (Register payload) users !! str_lower (RegisterRequest.email payload)).
Proof.
  rewrite exec_register. simpl.
  destruct (users !! str_lower (RegisterRequest.email payload)) as [user|] eqn:Hkey.
  - rewrite Hkey. eauto.
  - rewrite lookup_insert_eq. eauto.
Qed.

Lemma run_keeps_present calls users key :
  is_Some (users !! key) → is_Some (run str_lower calls users !! key).
Proof. intros [user Huser]. exists user. apply run_keeps_records, Huser. Qed.

Lemma run_lookup calls : ∀ (users : USERS) key,
  run str_lower calls users !! key
  = match users !! key with
    | Some user => Some user
    | None => record_of str_lower <$> first_register str_lower key calls
    end.
Proof.
  induction calls as [|c calls IH]; intros users key.
  - simpl. destruct (users !! key); reflexivity.
  - rewrite run_cons, IH. destruct c as [|payload|payload].
    + rewrite exec_health. reflexivity.
    + rewrite exec_register. simpl.
      destruct (users !! str_lower (RegisterRequest.email payload)) as [user|] eqn:Hk.
      * destruct (decide (str_lower (RegisterRequest.email payload) = key)) as [<-|Hne];
          [rewrite Hk|]; reflexivity.
      * destruct (decide (str_lower (RegisterRequest.email payload) = key)) as [<-|Hne].
        -- rewrite lookup_insert_eq, Hk. reflexivity.
        -- rewrite lookup_insert_ne by exact Hne. reflexivity.
    + rewrite exec_login. reflexivity.
Qed.

Lemma first_register_Some key calls payload :
  first_register str_lower key calls = Some payload →
  Register payload ∈ calls ∧ str_lower (RegisterRequest.email payload) = key.
Proof.
  induction calls as [|c calls IH]; simpl; [discriminate|].
  destruct c as [|first|first].
  - intros [Hin Hkey]%IH. split; [right; exact Hin|exact Hkey].
  - destruct (decide (str_lower (RegisterRequest.email first) = key)) as [Hk|Hk].
    + intros [= <-]. split; [left|exact Hk].
    + intros [Hin Hkey]%IH. split; [right; exact Hin|exact Hkey].
  - intros [Hin Hkey]%IH. split; [right; exact Hin|exact Hkey].
Qed.

(** X6. First writer wins: after any sequence of calls, the record under a
    key is the one the store already had, or else the record of the first
    Register call of the sequence for that key; later Register calls for it
    and all Login and Health Check calls have no effect on it. *)
Theorem run_first_register_wins (calls : list call) (users : USERS) (key : string) :
  run str_lower calls users !! key
  = match users !! key with
    | Some user => Some user
    | None => record_of str_lower <$> first_register str_lower key calls
    end.
Proof. apply run_lookup. Qed.

(** X19. Every record of a store reached from the empty one was put there
    by a Register call of the sequence: its key is the lowercased email of
    that call, its name the name as submitted, and its [password_hash] the
    64-character digest of the submitted password. *)
Theorem reachable_records (calls : list call) (key : string) (user : dict) :
  run str_lower calls ∅ !! key = Some user →
  ∃ payload,
    Register payload ∈ calls
    ∧ key = str_lower (RegisterRequest.email payload)
    ∧ user !! "name" = Some (RegisterRequest.name payload)
    ∧ user !! "email" = Some key
    ∧ user !! "password_hash"
      = Some (_hash_password (RegisterRequest.password payload))
    ∧ String.length (_hash_password (RegisterRequest.password payload)) = 64%nat.
Proof.
  rewrite run_lookup, lookup_empty.
  destruct (first_register str_lower key calls) as [payload|] eqn:Hfirst; [|discriminate].
  intros [= <-]. apply first_register_Some in Hfirst as [Hin <-].
  exists payload. split; [exact Hin|]. split; [reflexivity|].
  split; [reflexivity|]. split; [reflexivity|]. split; [reflexivity|].
  apply Sha256Facts.hexdigest_length.
Qed.

(** X7. Login succeeds only against a stored record whose [password_hash]
    is the hash of the supplied password; the response then carries that
    record's name and the lowercased email, and the store is unchanged. *)
Theorem login_success_sound (users users' : USERS) (email password : string)
    (resp : LoginResponse.t) :
  login_user str_lower (LoginRequest.make email password) users = (Returns resp, users') →
  users' = users
  ∧ ∃ user name,
      users !! str_lower email = Some user
      ∧ user !! "password_hash" = Some (_hash_password password)
      ∧ user !! "name" = Some name
      ∧ resp = LoginResponse.make "Login successful"
                 {[ "name" := name; "email" := str_lower email ]}.
Proof.
  rewrite login_user_unfold. simpl. intros Hlogin.
  injection Hlogin as Hout <-. split; [reflexivity|].
  destruct (users !! str_lower email) as [user|] eqn:Huser; [|discriminate].
  destruct (bool_decide (user = ∅)); [discriminate|].
  destruct (user !! "password_hash") as [stored|] eqn:Hstored; [|discriminate].
  destruct (bool_decide (stored = _hash_password password)) eqn:Hcmp;
    [|discriminate].
  apply bool_decide_eq_true in Hcmp. subst stored.
  destruct (user !! "name") as [name|] eqn:Hname; [|discriminate].
  injection Hout as <-. exists user, name. repeat split; assumption || reflexivity.
Qed.

(** X8. On every store reached from the empty one, Login has three outcomes
    only: success with a name and the lowercased email, not found, or
    invalid credentials; it never fails on a missing field of a record. *)
Theorem login_outcomes_reachable (calls : list call) (email password : string) :
  (∃ name,
     (login_user str_lower (LoginRequest.make email password) (run str_lower calls ∅)).1
     = Returns (LoginResponse.make "Login successful"
                  {[ "name" := name; "email" := str_lower email ]}))
  ∨ (login_user str_lower (LoginRequest.make email password) (run str_lower calls ∅)).1
    = Raises user_not_found
  ∨ (login_user str_lower (LoginRequest.make email password) (run str_lower calls ∅)).1
    = Raises invalid_credentials.
Proof.
  pose proof (run_preserves_inv calls ∅ store_inv_empty) as Hinv.
  destruct (run str_lower calls ∅ !! str_lower email) as [user|] eqn:Huser.
  - destruct (Hinv _ _ Huser) as (email' & name & stored & _ & ->).
    rewrite (login_user_record _ _ password _ _ Huser). simpl.
    destruct (bool_decide (stored = _hash_password password)); eauto.
  - rewrite (login_user_absent (LoginRequest.make email password) _ Huser). auto.
Qed.

(** X9. A registered account stays usable and cannot be taken over: after a
    successful Register, and whatever calls follow -- further Register
    calls for the same email included -- Login with the registered password
    under any casing of the email returns the registered name. *)
Theorem registered_user_can_login_later (users : USERS) (calls : list call)
    (name email1 email2 password : string) :
  users !! str_lower email1 = None →
  str_lower email1 = str_lower email2 →
  login_user str_lower (LoginRequest.make email2 password)
    (run str_lower calls (exec str_lower (Register (RegisterRequest.make name email1 password)) users))
  = (Returns (LoginResponse.make "Login successful"
                {[ "name" := name; "email" := str_lower email1 ]}),
     run str_lower calls (exec str_lower (Register (RegisterRequest.make name email1 password)) users)).
Proof.
  intros Hfresh Hsame.
  rewrite Hsame.
  rewrite (login_user_record _ email2 password name (_hash_password password)).
  - rewrite bool_decide_eq_true_2; reflexivity.
  - apply run_keeps_records. rewrite exec_register. simpl.
    rewrite Hfresh, <- Hsame. apply lookup_insert_eq.
Qed.

(** X10. Once a Register call for an email has run -- whether it succeeded
    or not, and whatever ran before and after it -- every Register for an
    email with the same lowercase form fails with the duplicate-user error
    and leaves the store unchanged. *)
Theorem register_after_register_fails (users : USERS) (calls1 calls2 : list call)
    (first again : RegisterRequest.t) :
  str_lower (RegisterRequest.email first) = str_lower (RegisterRequest.email again) →
  register_user str_lower again (run str_lower (calls1 ++ Register first :: calls2) users)
  = (Raises user_already_exists,
     run str_lower (calls1 ++ Register first :: calls2) users).
Proof.
  intros Hsame. rewrite register_user_unfold. simpl.
  assert (Hkey : is_Some (run str_lower (calls1 ++ Register first :: calls2) users
                          !! str_lower (RegisterRequest.email again))).
  { rewrite run_app, run_cons, <- Hsame.
    apply run_keeps_present, exec_register_present. }
  destruct Hkey as [user ->]. reflexivity.
Qed.

(** X11. Login and Health Check calls can be dropped from a sequence
    without changing the store it leads to: only the Register calls count. *)
Theorem run_ignores_reads (calls : list call) (users : USERS) :
  run str_lower calls users = run str_lower (List.filter is_register calls) users.
Proof.
  revert users. induction calls as [|c calls IH]; intros users; [reflexivity|].
  destruct c as [|payload|payload]; simpl List.filter; rewrite !run_cons.
  - rewrite exec_health. apply IH.
  - apply IH.
  - rewrite exec_login. apply IH.
Qed.

(** X12. Register calls for emails with different lowercase forms commute:
    either order leads to the same store. *)
Theorem register_calls_commute (users : USERS) (p1 p2 : RegisterRequest.t) :
  str_lower (RegisterRequest.email p1) ≠ str_lower (RegisterRequest.email p2) →
  exec str_lower (Register p1) (exec str_lower (Register p2) users)
  = exec str_lower (Register p2) (exec str_lower (Register p1) users).
Proof.
  intros Hne. rewrite !exec_register. simpl.
  destruct (users !! str_lower (RegisterRequest.email p1)) as [u1|] eqn:H1;
    destruct (users !! str_lower (RegisterRequest.email p2)) as [u2|] eqn:H2;
    rewrite ?H1, ?H2, ?lookup_insert_ne, ?H1, ?H2 by congruence;
    try reflexivity.
  apply insert_insert_ne. congruence.
Qed.

(** X13. What Register's outcome says about the store: if it raises, the
    error is the duplicate-user error, the key was present and the store is
    unchanged; if it returns, the key was absent and the store has grown by
    exactly the record of the request. *)
Theorem register_outcome_decides (users users' : USERS)
    (payload : RegisterRequest.t) (out : outcome RegisterResponse.t) :
  register_user str_lower payload users = (out, users') →
  match out with
  | Raises e =>
      e = user_already_exists ∧ users' = users
      ∧ is_Some (users !! str_lower (RegisterRequest.email payload))
  | Returns resp =>
      users !! str_lower (RegisterRequest.email payload) = None
      ∧ users' = <[str_lower (RegisterRequest.email payload) := record_of str_lower payload]> users
      ∧ size users' = S (size users)
  end.
Proof.
  rewrite register_user_unfold. simpl.
  destruct (users !! str_lower (RegisterRequest.email payload)) as [user|] eqn:Hkey;
    intros [= <- <-].
  - repeat split; eauto.
  - split; [reflexivity|]. split; [reflexivity|].
    apply map_size_insert_None, Hkey.
Qed.

(** ** Validation and the endpoints behind it *)

Lemma validate_register_spec EmailStr body payload :
  RegisterRequest_validate EmailStr body = Some payload
  ↔ body !! "name" = Some (RegisterRequest.name payload)
    ∧ (∃ address, body !! "email" = Some address
                  ∧ EmailStr address = Some (RegisterRequest.email payload))
    ∧ body !! "password" = Some (RegisterRequest.password payload)
    ∧ (6 ≤ len (RegisterRequest.password payload))%nat.
Proof.
  unfold RegisterRequest_validate. destruct payload as [name email password].
  simpl. split.
  - destruct (body !! "name") as [name'|]; simpl; [|discriminate].
    destruct (body !! "email") as [address|]; simpl; [|discriminate].
    destruct (EmailStr address) as [email'|] eqn:Hvalid; simpl; [|discriminate].
    destruct (body !! "password") as [password'|]; simpl; [|discriminate].
    destruct (decide (6 ≤ len password')%nat) as [Hlong|]; simpl; [|discriminate].
    intros [= -> -> ->]. eauto 10.
  - intros (-> & (address & -> & Hvalid) & -> & Hlong). simpl.
    rewrite Hvalid. simpl. rewrite decide_True by exact Hlong. reflexivity.
Qed.

(** X15. The register route fails in two ways only, and neither touches the
    store: a validation error, when the body does not validate, or the
    duplicate-user error, when it validates and the lowercased email is
    already a key. *)
Theorem post_register_errors (EmailStr : string → option string)
    (body : dict) (users users' : USERS) (e : exn) :
  post_register str_lower EmailStr body users = (Raises e, users') →
  users' = users
  ∧ ((e = RequestValidationError ∧ RegisterRequest_validate EmailStr body = None)
     ∨ (e = user_already_exists
        ∧ ∃ payload, RegisterRequest_validate EmailStr body = Some payload
                     ∧ is_Some (users !! str_lower (RegisterRequest.email payload)))).
Proof.
  unfold post_register.
  destruct (RegisterRequest_validate EmailStr body) as [payload|].
  - rewrite register_user_unfold. simpl.
    destruct (users !! str_lower (RegisterRequest.email payload)) as [user|] eqn:Hkey;
      intros [= <- <-].
    split; [reflexivity|]. right. split; [reflexivity|]. exists payload.
    rewrite Hkey. eauto.
  - intros [= <- <-]. split; [reflexivity|]. left. split; reflexivity.
Qed.

(** X16. Through the routes: when a register body is accepted and the user
    created, a login body with the same [email] and [password] fields, sent
    to the resulting store, logs in and gets the user payload the register
    response carried. *)
Theorem post_register_then_login (EmailStr : string → option string)
    (body body' : dict) (users users' : USERS) (resp : RegisterResponse.t) :
  post_register str_lower EmailStr body users = (Returns resp, users') →
  body' !! "email" = body !! "email" →
  body' !! "password" = body !! "password" →
  post_login str_lower EmailStr body' users'
  = (Returns (LoginResponse.make "Login successful" (RegisterResponse.user resp)),
     users').
Proof.
  unfold post_register, post_login. intros Hreg Hemail Hpassword.
  destruct (RegisterRequest_validate EmailStr body) as [payload|] eqn:Hvalid;
    [|discriminate].
  apply validate_register_spec in Hvalid
    as (_ & (address & Haddress & Hnormal) & Hpw & _).
  unfold LoginRequest_validate. rewrite Hemail, Hpassword, Haddress, Hpw.
  simpl. rewrite Hnormal. simpl.
  rewrite register_user_unfold in Hreg. simpl in Hreg.
  destruct (users !! str_lower (RegisterRequest.email payload)); [discriminate|].
  injection Hreg as <- <-. simpl.
  rewrite (login_user_record _ (RegisterRequest.email payload)
             (RegisterRequest.password payload) (RegisterRequest.name payload)
             (_hash_password (RegisterRequest.password payload))).
  - rewrite bool_decide_eq_true_2; reflexivity.
  - apply lookup_insert_eq.
Qed.

(** ** Normalization of the email *)

(** C10, amended. On success Register returns -- and stores -- the
    lowercased email, not the email as submitted, and the name exactly as
    submitted.  The returned email differs from the submitted one exactly
    when lowercasing changes that string. *)
Theorem register_returns_lowercased_email (users : USERS)
    (name email password : string) :
  users !! str_lower email = None →
  ∃ resp users',
    register_user str_lower (RegisterRequest.make name email password) users
    = (Returns resp, users')
    ∧ RegisterResponse.user resp !! "email" = Some (str_lower email)
    ∧ RegisterResponse.user resp !! "name" = Some name
    ∧ (∃ user, users' !! str_lower email = Some user
               ∧ user !! "email" = Some (str_lower email)
               ∧ user !! "name" = Some name)
    ∧ (RegisterResponse.user resp !! "email" ≠ Some email
       ↔ str_lower email ≠ email).
Proof.
  intros Hfresh. eexists _, _. split.
  { rewrite register_user_unfold. simpl. rewrite Hfresh. reflexivity. }
  simpl. split; [reflexivity|]. split; [reflexivity|]. split.
  - eexists. split; [apply lookup_insert_eq|]. split; reflexivity.
  - assert (Hl : ({[ "name" := name; "email" := str_lower email ]} : dict)
                 !! "email" = Some (str_lower email)) by reflexivity.
    rewrite Hl. split; intros Hne Heq; apply Hne; congruence.
Qed.

End ServiceFacts.

(** ** Concrete runs, with [lower] for [str.lower()] *)

(** The end-to-end scenario: register Ann, log in with another casing, log
    in with a wrong password, register the same email again. *)
Example end_to_end :
  register_user lower ann ∅
  = (Returns (RegisterResponse.make "User registered"
                {[ "name" := "Ann"; "email" := "ann@x.com" ]}), ann_store)
  ∧ login_user lower (LoginRequest.make "ANN@X.COM" "secret1") ann_store
    = (Returns (LoginResponse.make "Login successful"
                  {[ "name" := "Ann"; "email" := "ann@x.com" ]}), ann_store)
  ∧ login_user lower (LoginRequest.make "ann@x.com" "wrong") ann_store
    = (Raises invalid_credentials, ann_store)
  ∧ register_user lower ann2 ann_store = (Raises user_already_exists, ann_store)
  ∧ health_check ann_store = (Returns {[ "message" := "Healthy" ]}, ann_store).
Proof.
  rewrite !register_user_unfold, !login_user_unfold.
  repeat split; reflexivity.
Qed.

Lemma register_duplicate_fails_witness :
  is_Some (ann_store !! lower "Ann@X.com") ∧
  register_user lower (RegisterRequest.make "Ann2" "Ann@X.com" "other1") ann_store
  = (Raises user_already_exists, ann_store).
Proof.
  assert (Hkey : is_Some (ann_store !! lower "Ann@X.com")).
  { exists (user_record "Ann" "ann@x.com" (_hash_password "secret1")).
    apply lookup_singleton_eq. }
  split; [exact Hkey|].
  exact (register_duplicate_fails lower ann_store "Ann2" "Ann@X.com" "other1" Hkey).
Defined.

Lemma register_fresh_succeeds_witness :
  (∅ : USERS) !! lower "ann@x.com" = None ∧
  register_user lower ann ∅
  = (Returns (RegisterResponse.make "User registered"
                {[ "name" := "Ann"; "email" := "ann@x.com" ]}),
     ann_store).
Proof.
  split; [apply lookup_empty|].
  exact (proj1 (register_fresh_succeeds lower ∅ "Ann" "ann@x.com" "secret1"
                  (lookup_empty _))).
Defined.

Lemma login_unknown_email_witness :
  (∅ : USERS) !! lower "Bob@x.com" = None ∧
  login_user lower (LoginRequest.make "Bob@x.com" "secret1") ∅
  = (Raises user_not_found, ∅) ∧
  login_user lower (LoginRequest.make "Bob@x.com" "secret1")
    (run lower [HealthCheck; Register ann; Login (LoginRequest.make "ann@x.com" "secret1")] ∅)
  = (Raises user_not_found,
     run lower [HealthCheck; Register ann; Login (LoginRequest.make "ann@x.com" "secret1")] ∅).
Proof.
  pose proof (login_unknown_email lower ∅ "Bob@x.com" "secret1" (lookup_empty _))
    as [Hnow Hlater].
  split; [apply lookup_empty|]. split; [exact Hnow|].
  apply Hlater. repeat constructor; simpl; try tauto. discriminate.
Defined.

Lemma login_checks_password_witness :
  ann_store !! lower "ANN@X.COM"
  = Some (user_record "Ann" "ann@x.com" (_hash_password "secret1")) ∧
  login_user lower (LoginRequest.make "ANN@X.COM" "wrong") ann_store
  = (Raises invalid_credentials, ann_store) ∧
  login_user lower (LoginRequest.make "ANN@X.COM" "secret1") ann_store
  = (Returns (LoginResponse.make "Login successful"
                {[ "name" := "Ann"; "email" := "ann@x.com" ]}), ann_store).
Proof.
  assert (Hkey : ann_store !! lower "ANN@X.COM"
    = Some (user_record "Ann" "ann@x.com" (_hash_password "secret1"))).
  { apply lookup_singleton_eq. }
  split; [exact Hkey|]. split.
  - apply (proj1 (login_checks_password lower ann_store _ "ANN@X.COM" "wrong"
                    (_hash_password "secret1") Hkey eq_refl)).
    vm_compute. discriminate.
  - apply (proj1 (proj2 (login_checks_password lower ann_store _ "ANN@X.COM" "secret1"
                           (_hash_password "secret1") Hkey eq_refl)));
      reflexivity.
Defined.

Lemma register_then_login_witness :
  lower "User@Example.com" = lower "user@example.com" ∧
  login_user lower (LoginRequest.make "user@example.com" "secret1")
    {[ "user@example.com" :=
         user_record "Una" "user@example.com" (_hash_password "secret1") ]}
  = (Returns (LoginResponse.make "Login successful"
                {[ "name" := "Una"; "email" := "user@example.com" ]}),
     {[ "user@example.com" :=
          user_record "Una" "user@example.com" (_hash_password "secret1") ]}).
Proof.
  split; [reflexivity|].
  refine (proj1 (register_then_login lower ∅ _ "Una" "User@Example.com"
                   "user@example.com" "secret1"
                   (RegisterResponse.make "User registered"
                      {[ "name" := "Una"; "email" := "user@example.com" ]})
                   _ _)); [reflexivity|].
  rewrite register_user_unfold. reflexivity.
Defined.

Lemma store_invariant_preserved_witness :
  store_inv lower ∅ ∧
  store_inv lower (run lower [Register ann; Login (LoginRequest.make "ANN@X.COM" "secret1");
                  Register ann2; HealthCheck] ∅) ∧
  run lower [Register ann2; HealthCheck] ann_store !! "ann@x.com"
  = Some (user_record "Ann" "ann@x.com" (_hash_password "secret1")).
Proof.
  split; [exact (store_inv_empty lower)|]. split.
  - exact (proj1 (store_invariant_preserved lower ∅ _ (store_inv_empty lower))).
  - assert (Hann : store_inv lower ann_store).
    { exact (proj1 (store_invariant_preserved lower ∅ [Register ann] (store_inv_empty lower))). }
    apply (proj1 (proj2 (proj2 (store_invariant_preserved lower ann_store
                                  [Register ann2; HealthCheck] Hann)))).
    apply lookup_singleton_eq.
Defined.

Lemma register_schema_validation_witness :
  short_password_body !! "password" = Some "12345" ∧
  (len "12345" < 6)%nat ∧
  post_register lower EmailStr_normal short_password_body ∅
  = (Raises RequestValidationError, ∅).
Proof.
  split; [reflexivity|]. split; [vm_compute; lia|].
  apply (proj1 (register_schema_validation lower EmailStr_normal
                  short_password_body ∅ "12345" eq_refl)).
  vm_compute. lia.
Defined.

Lemma reachable_records_witness :
  ∃ payload,
    Register payload ∈ [HealthCheck; Register ann; Register ann2]
    ∧ user_record "Ann" "ann@x.com" (_hash_password "secret1") !! "name"
      = Some (RegisterRequest.name payload).
Proof.
  destruct (reachable_records lower [HealthCheck; Register ann; Register ann2]
              "ann@x.com"
              (user_record "Ann" "ann@x.com" (_hash_password "secret1")))
    as (payload & Hin & _ & Hname & _).
  - rewrite run_lookup. reflexivity.
  - exists payload. split; assumption.
Defined.

Lemma login_success_sound_witness :
  ∃ user,
    ann_store !! lower "ANN@X.COM" = Some user
    ∧ user !! "password_hash" = Some (_hash_password "secret1").
Proof.
  destruct (login_success_sound lower ann_store ann_store "ANN@X.COM" "secret1"
              (LoginResponse.make "Login successful"
                 {[ "name" := "Ann"; "email" := "ann@x.com" ]}))
    as (_ & user & name & Huser & Hhash & _).
  - rewrite (login_user_record lower ann_store "ANN@X.COM" "secret1" "Ann"
               (_hash_password "secret1")).
    + rewrite bool_decide_eq_true_2; reflexivity.
    + apply lookup_singleton_eq.
  - exists user. split; assumption.
Defined.

Lemma registered_user_can_login_later_witness :
  login_user lower (LoginRequest.make "ANN@x.com" "secret1")
    (run lower [Register ann2; HealthCheck] (exec lower (Register ann) ∅))
  = (Returns (LoginResponse.make "Login successful"
                {[ "name" := "Ann"; "email" := "ann@x.com" ]}),
     run lower [Register ann2; HealthCheck] (exec lower (Register ann) ∅)).
Proof.
  exact (registered_user_can_login_later lower ∅ [Register ann2; HealthCheck]
           "Ann" "ann@x.com" "ANN@x.com" "secret1" (lookup_empty _) eq_refl).
Defined.

Lemma register_after_register_fails_witness :
  register_user lower ann2
    (run lower ([HealthCheck] ++ Register ann
            :: [Login (LoginRequest.make "ann@x.com" "nope")]) ∅)
  = (Raises user_already_exists,
     run lower ([HealthCheck] ++ Register ann
            :: [Login (LoginRequest.make "ann@x.com" "nope")]) ∅).
Proof.
  exact (register_after_register_fails lower ∅ [HealthCheck]
           [Login (LoginRequest.make "ann@x.com" "nope")] ann ann2 eq_refl).
Defined.

Lemma register_calls_commute_witness :
  exec lower (Register ann) (exec lower (Register (RegisterRequest.make "Bob" "bob@x.com" "hunter22")) ∅)
  = exec lower (Register (RegisterRequest.make "Bob" "bob@x.com" "hunter22")) (exec lower (Register ann) ∅).
Proof.
  apply (register_calls_commute lower ∅ ann
           (RegisterRequest.make "Bob" "bob@x.com" "hunter22")).
  discriminate.
Defined.

Lemma register_outcome_decides_witness : size ann_store = 1%nat.
Proof.
  refine (proj2 (proj2 (register_outcome_decides lower ∅ ann_store ann
    (Returns (RegisterResponse.make "User registered"
                {[ "name" := "Ann"; "email" := "ann@x.com" ]})) _))).
  rewrite register_user_unfold. reflexivity.
Defined.

Lemma post_register_errors_witness :
  post_register lower EmailStr_normal short_password_body ann_store
  = (Raises RequestValidationError, ann_store)
  ∧ RegisterRequest_validate EmailStr_normal short_password_body = None.
Proof.
  assert (Hpost : post_register lower EmailStr_normal short_password_body ann_store
                  = (Raises RequestValidationError, ann_store)) by reflexivity.
  split; [exact Hpost|].
  destruct (post_register_errors lower _ _ _ _ _ Hpost) as [_ [[_ Hnone]|[Hdup _]]].
  - exact Hnone.
  - discriminate.
Defined.

Lemma post_register_then_login_witness :
  post_login lower EmailStr_normal
    {[ "email" := "ann@x.com"; "password" := "secret1" ]} ann_store
  = (Returns (LoginResponse.make "Login successful"
                {[ "name" := "Ann"; "email" := "ann@x.com" ]}), ann_store).
Proof.
  refine (post_register_then_login lower EmailStr_normal
            {[ "name" := "Ann"; "email" := "ann@x.com"; "password" := "secret1" ]}
            {[ "email" := "ann@x.com"; "password" := "secret1" ]} ∅ ann_store
            (RegisterResponse.make "User registered"
               {[ "name" := "Ann"; "email" := "ann@x.com" ]}) _ _ _).
  - unfold post_register.
    replace (RegisterRequest_validate EmailStr_normal _) with (Some ann)
      by reflexivity.
    rewrite register_user_unfold. reflexivity.
  - reflexivity.
  - reflexivity.
Defined.

(** C9, as the claim has it, fails on names: the [name] field is declared
    without any length constraint, so a body with an empty name passes
    validation, reaches [register_user], and a record with an empty name
    is stored. *)
Lemma empty_name_is_registered :
  empty_name_body !! "name" = Some ""
  ∧ RegisterRequest_validate EmailStr_normal empty_name_body
    = Some (RegisterRequest.make "" "ann@x.com" "secret1")
  ∧ post_register lower EmailStr_normal empty_name_body ∅
    = (Returns (RegisterResponse.make "User registered"
                  {[ "name" := ""; "email" := "ann@x.com" ]}),
       {[ "ann@x.com" :=
            user_record "" "ann@x.com" (_hash_password "secret1") ]}).
Proof.
  split; [reflexivity|]. split; [reflexivity|].
  unfold post_register.
  replace (RegisterRequest_validate EmailStr_normal empty_name_body)
    with (Some (RegisterRequest.make "" "ann@x.com" "secret1")) by reflexivity.
  rewrite register_user_unfold. reflexivity.
Qed.

Lemma register_returns_lowercased_email_witness :
  (∅ : USERS) !! lower "Ann@X.com" = None ∧
  ∃ resp users',
    register_user lower (RegisterRequest.make " Ann B " "Ann@X.com" "secret1") ∅
    = (Returns resp, users')
    ∧ RegisterResponse.user resp !! "email" = Some "ann@x.com"
    ∧ RegisterResponse.user resp !! "name" = Some " Ann B "
    ∧ RegisterResponse.user resp !! "email" ≠ Some "Ann@X.com".
Proof.
  split; [apply lookup_empty|].
  destruct (register_returns_lowercased_email lower ∅ " Ann B " "Ann@X.com"
              "secret1" (lookup_empty _))
    as (resp & users' & Hreg & Hemail & Hname & _ & Hdiff).
  exists resp, users'. split; [exact Hreg|]. split; [exact Hemail|].
  split; [exact Hname|]. apply Hdiff. discriminate.
Defined.

(** C10, as the claim has it, fails on uppercase letters that have no
    lowercase form.  U+2102, the double-struck capital C, is one of them:
    [str.lower()] returns the string unchanged, as [lower] does, so the
    email comes back as it was submitted although it holds an uppercase
    letter. *)
Lemma uppercase_email_returned_as_submitted :
  lower "ℂ@x.com" = "ℂ@x.com"
  ∧ register_user lower (RegisterRequest.make "Ann" "ℂ@x.com" "secret1") ∅
    = (Returns (RegisterResponse.make "User registered"
                  {[ "name" := "Ann"; "email" := "ℂ@x.com" ]}),
       {[ "ℂ@x.com" := user_record "Ann" "ℂ@x.com" (_hash_password "secret1") ]}).
Proof.
  split; [reflexivity|]. rewrite register_user_unfold. reflexivity.
Qed.

(** ** Splitting and stripping *)

Example split_edges :
  str_split "," "" = [""] ∧ str_split "," "," = [""; ""]
  ∧ str_split "," "a,,b" = ["a"; ""; "b"].
Proof. repeat split; reflexivity. Qed.

(** The whitespace characters, as bytes. *)
Example whitespace_bytes :
  map (map N_of_ascii) whitespace =
  [
    [9]; [10]; [11]; [12]; [13]; [28]; [29]; [30]; [31]; [32]; [194; 133];
    [194; 160]; [225; 154; 128]; [226; 128; 128]; [226; 128; 129]; [226;
    128; 130]; [226; 128; 131]; [226; 128; 132]; [226; 128; 133]; [226;
    128; 134]; [226; 128; 135]; [226; 128; 136]; [226; 128; 137]; [226;
    128; 138]; [226; 128; 168]; [226; 128; 169]; [226; 128; 175]; [226;
    129; 159]; [227; 128; 128] ].
Proof. vm_compute. reflexivity. Qed.

Example strip_edges :
  strip "  a b  " = "a b" ∧ strip "   " = "" ∧ strip "" = ""
  ∧ strip (String "009" (String "x" (String "010" ""))) = "x"
  ∧ strip "  　a b  " = "a b" ∧ strip "​" = "​".
Proof. vm_compute. repeat split; reflexivity. Qed.

Example origins_listing :
  get_allowed_origins_from_env listing_environ
  = ["https://a.example"; "https://b.example"].
Proof. vm_compute. reflexivity. Qed.

Lemma append_cons c s1 s2 :
  String.append (String c s1) s2 = String c (String.append s1 s2).
Proof. reflexivity. Qed.

Lemma str_split_not_nil sep s : str_split sep s ≠ [].
Proof.
  destruct s as [|c s]; simpl; [discriminate|].
  destruct (Ascii.eqb c sep); [discriminate|].
  destruct (str_split sep s); discriminate.
Qed.

Lemma str_split_no_sep sep s : Forall (no_char sep) (str_split sep s).
Proof.
  induction s as [|c s IH]; simpl.
  - repeat constructor.
  - destruct (Ascii.eqb c sep) eqn:Hc.
    + constructor; [exact I|exact IH].
    + apply Ascii.eqb_neq in Hc.
      destruct (str_split sep s) as [|piece pieces].
      * repeat constructor. exact Hc.
      * apply Forall_cons in IH as [Hpiece Hpieces].
        constructor; [split; assumption|exact Hpieces].
Qed.

Lemma str_split_whole sep s : no_char sep s → str_split sep s = [s].
Proof.
  induction s as [|c s IH]; simpl; [reflexivity|].
  intros [Hc Hs]. apply Ascii.eqb_neq in Hc. rewrite Hc, (IH Hs). reflexivity.
Qed.

Lemma str_split_app sep s rest :
  no_char sep s →
  str_split sep (String.append s (String sep rest)) = s :: str_split sep rest.
Proof.
  induction s as [|c s IH]; intros Hs.
  - change (String.append "" (String sep rest)) with (String sep rest).
    simpl. rewrite Ascii.eqb_refl. reflexivity.
  - destruct Hs as [Hc Hs]. apply Ascii.eqb_neq in Hc.
    rewrite append_cons. simpl. rewrite Hc, (IH Hs). reflexivity.
Qed.

(** Splitting undoes joining, for pieces without the separator. *)
Lemma str_split_concat sep pieces :
  pieces ≠ [] → Forall (no_char sep) pieces →
  str_split sep (String.concat (String sep "") pieces) = pieces.
Proof.
  intros Hne Hpieces. induction Hpieces as [|piece pieces Hpiece Hrest IH];
    [congruence|].
  destruct pieces as [|piece' pieces].
  - simpl. apply str_split_whole, Hpiece.
  - change (String.concat (String sep "") (piece :: piece' :: pieces))
      with (String.append piece
              (String sep (String.concat (String sep "") (piece' :: pieces)))).
    rewrite (str_split_app _ _ _ Hpiece), IH by discriminate. reflexivity.
Qed.

Lemma drop_prefix_Some p : ∀ l rest,
  drop_prefix p l = Some rest ↔ l = p ++ rest.
Proof.
  induction p as [|a p IH]; intros l rest; simpl.
  - split; congruence.
  - destruct l as [|b l]; [split; discriminate|].
    destruct (Ascii.eqb a b) eqn:Hab.
    + apply Ascii.eqb_eq in Hab as ->. rewrite IH. split; congruence.
    + apply Ascii.eqb_neq in Hab. split; [discriminate|congruence].
Qed.

Lemma drop_first_Some ps : ∀ l rest,
  drop_first ps l = Some rest → ∃ p, p ∈ ps ∧ l = p ++ rest.
Proof.
  induction ps as [|p ps IH]; intros l rest; simpl; [discriminate|].
  destruct (drop_prefix p l) as [rest'|] eqn:Hp.
  - intros [= <-]. exists p. split; [left|]. by apply drop_prefix_Some.
  - intros (q & Hq & Hl)%IH. exists q. split; [by right|done].
Qed.

Lemma drop_first_is_Some ps p rest :
  p ∈ ps → is_Some (drop_first ps (p ++ rest)).
Proof.
  induction ps as [|q ps IH]; [by intros ?%elem_of_nil|].
  intros [Heq|Hin]%elem_of_cons; simpl.
  - subst q. rewrite (proj2 (drop_prefix_Some p (p ++ rest) rest) eq_refl). eauto.
  - destruct (drop_prefix q (p ++ rest)); eauto.
Qed.

Lemma drop_leading_suffix ps fuel : ∀ l,
  ∃ k, l = k ++ drop_leading ps fuel l.
Proof.
  induction fuel as [|fuel IH]; intros l; simpl; [by exists []|].
  destruct (drop_first ps l) as [rest|] eqn:Hfirst; [|by exists []].
  apply drop_first_Some in Hfirst as (p & _ & ->).
  destruct (IH rest) as [k Hk]. exists (p ++ k). by rewrite <- app_assoc, <- Hk.
Qed.

Lemma drop_leading_done ps fuel : ∀ l,
  Forall (λ p, p ≠ []) ps → (List.length l ≤ fuel)%nat →
  drop_first ps (drop_leading ps fuel l) = None.
Proof.
  induction fuel as [|fuel IH]; intros l Hps Hlen; simpl.
  - destruct l; [|simpl in Hlen; lia].
    destruct (drop_first ps []) as [rest|] eqn:Hfirst; [|done].
    apply drop_first_Some in Hfirst as (p & Hp & Hnil).
    rewrite Forall_forall in Hps. specialize (Hps p Hp).
    destruct p; [done|discriminate].
  - destruct (drop_first ps l) as [rest|] eqn:Hfirst; [|done].
    apply IH; [done|].
    apply drop_first_Some in Hfirst as (p & Hp & ->).
    rewrite Forall_forall in Hps. specialize (Hps p Hp).
    rewrite length_app in Hlen. destruct p; [done|]. simpl in Hlen. lia.
Qed.

Lemma drop_leading_fixed ps fuel l :
  drop_first ps l = None → drop_leading ps fuel l = l.
Proof. intros Hnone. destruct fuel; simpl; [done|]. by rewrite Hnone. Qed.

Lemma whitespace_not_nil : Forall (λ p : list ascii, p ≠ []) whitespace.
Proof. vm_compute. repeat constructor; discriminate. Qed.

Lemma rev_whitespace_not_nil :
  Forall (λ p : list ascii, p ≠ []) (map (@rev ascii) whitespace).
Proof. vm_compute. repeat constructor; discriminate. Qed.

Lemma lstrip_chars_done l : drop_first whitespace (lstrip_chars l) = None.
Proof. apply drop_leading_done; [apply whitespace_not_nil|lia]. Qed.

Lemma rstrip_chars_prefix l : ∃ k, l = rstrip_chars l ++ k.
Proof.
  unfold rstrip_chars.
  destruct (drop_leading_suffix (map (@rev ascii) whitespace)
              (List.length l) (rev l)) as [k Hk].
  exists (rev k). rewrite <- rev_app_distr, <- Hk, rev_involutive. done.
Qed.

Lemma rstrip_chars_done l :
  drop_first (map (@rev ascii) whitespace) (rev (rstrip_chars l)) = None.
Proof.
  unfold rstrip_chars. rewrite rev_involutive.
  apply drop_leading_done; [apply rev_whitespace_not_nil|].
  rewrite length_rev. lia.
Qed.

(** A prefix of a list with no leading whitespace has none either. *)
Lemma drop_first_prefix ps l k :
  drop_first ps (l ++ k) = None → drop_first ps l = None.
Proof.
  intros Hnone. destruct (drop_first ps l) as [rest|] eqn:Hfirst; [|done].
  apply drop_first_Some in Hfirst as (p & Hp & ->).
  destruct (drop_first_is_Some ps p (rest ++ k) Hp) as [r Hr].
  rewrite <- app_assoc in Hnone. congruence.
Qed.

Lemma strip_chars_fixed l :
  drop_first whitespace l = None →
  drop_first (map (@rev ascii) whitespace) (rev l) = None →
  rstrip_chars (lstrip_chars l) = l.
Proof.
  intros Hl Hr. unfold lstrip_chars. rewrite (drop_leading_fixed _ _ _ Hl).
  unfold rstrip_chars. rewrite (drop_leading_fixed _ _ _ Hr).
  apply rev_involutive.
Qed.

Lemma strip_chars_idemp l :
  rstrip_chars (lstrip_chars (rstrip_chars (lstrip_chars l)))
  = rstrip_chars (lstrip_chars l).
Proof.
  apply strip_chars_fixed; [|apply rstrip_chars_done].
  destruct (rstrip_chars_prefix (lstrip_chars l)) as [k Hk].
  apply (drop_first_prefix _ _ k). rewrite <- Hk. apply lstrip_chars_done.
Qed.

Lemma strip_idemp s : strip (strip s) = strip s.
Proof.
  unfold strip. rewrite list_ascii_of_string_of_list_ascii.
  by rewrite strip_chars_idemp.
Qed.

Lemma strip_chars_Forall (P : ascii → Prop) l :
  Forall P l → Forall P (rstrip_chars (lstrip_chars l)).
Proof.
  intros Hl.
  destruct (drop_leading_suffix whitespace (List.length l) l) as [k1 Hk1].
  fold (lstrip_chars l) in Hk1.
  destruct (rstrip_chars_prefix (lstrip_chars l)) as [k2 Hk2].
  rewrite Hk1, Hk2 in Hl. apply Forall_app in Hl as [_ Hl].
  by apply Forall_app in Hl as [Hl _].
Qed.

Lemma no_char_Forall c s :
  no_char c s ↔ Forall (λ a, a ≠ c) (list_ascii_of_string s).
Proof.
  induction s as [|a s IH]; simpl.
  - split; [constructor|done].
  - rewrite Forall_cons, IH. done.
Qed.

Lemma strip_no_char c s : no_char c s → no_char c (strip s).
Proof.
  rewrite !no_char_Forall. unfold strip.
  rewrite list_ascii_of_string_of_list_ascii. apply strip_chars_Forall.
Qed.

(** No whitespace character is the beginning of another: the character a
    string starts with is determined. *)
Lemma whitespace_prefix_free w1 w2 l1 l2 :
  w1 ∈ whitespace → w2 ∈ whitespace → w1 ++ l1 = w2 ++ l2 →
  w1 = w2 ∧ l1 = l2.
Proof.
  assert (Hfree : forallb (λ p, forallb (λ q, negb (proper_prefix p q))
                                whitespace) whitespace = true)
    by (vm_compute; reflexivity).
  assert (Hno : ∀ p q k, p ∈ whitespace → q ∈ whitespace → q = p ++ k → k = []).
  { intros p q k Hp%list_elem_of_In Hq%list_elem_of_In ->.
    rewrite forallb_forall in Hfree. specialize (Hfree p Hp).
    rewrite forallb_forall in Hfree. specialize (Hfree _ Hq).
    unfold proper_prefix in Hfree.
    rewrite (proj2 (drop_prefix_Some p (p ++ k) k) eq_refl) in Hfree.
    destruct k; [done|discriminate]. }
  intros H1 H2 Heq. apply app_eq_app in Heq as [k [[-> ->]|[-> ->]]].
  - rewrite (Hno w2 (w2 ++ k) k H2 H1 eq_refl), app_nil_r. done.
  - rewrite (Hno w1 (w1 ++ k) k H1 H2 eq_refl), app_nil_r. done.
Qed.

Lemma spaces_drop_leading l :
  spaces l → ∀ fuel, (List.length l ≤ fuel)%nat →
  drop_leading whitespace fuel l = [].
Proof.
  induction 1 as [|w l Hw Hl IH]; intros fuel Hlen.
  - destruct fuel; reflexivity.
  - pose proof whitespace_not_nil as Hne. rewrite Forall_forall in Hne.
    specialize (Hne w Hw). rewrite length_app in Hlen.
    destruct fuel as [|fuel]; [destruct w; [done|simpl in Hlen; lia]|].
    change (drop_leading whitespace (S fuel) (w ++ l))
      with (match drop_first whitespace (w ++ l) with
            | Some rest => drop_leading whitespace fuel rest
            | None => w ++ l
            end).
    destruct (drop_first_is_Some whitespace w l Hw) as [rest Hrest].
    rewrite Hrest. apply drop_first_Some in Hrest as (q & Hq & Heq).
    apply whitespace_prefix_free in Heq as [_ <-]; [|done..].
    apply IH. destruct w; [done|simpl in Hlen; lia].
Qed.

Lemma spaces_strip s : spaces (list_ascii_of_string s) → strip s = "".
Proof.
  intros Hs. unfold strip, lstrip_chars.
  rewrite (spaces_drop_leading _ Hs) by lia. reflexivity.
Qed.

Lemma whitespace_no_comma :
  Forall (Forall (λ a, a ≠ ","%char)) whitespace.
Proof. vm_compute. repeat constructor; discriminate. Qed.

Lemma str_split_prefix sep w : ∀ l,
  Forall (λ a, a ≠ sep) w →
  ∃ piece pieces,
    str_split sep (string_of_list_ascii l) = piece :: pieces
    ∧ str_split sep (string_of_list_ascii (w ++ l))
      = string_of_list_ascii (w ++ list_ascii_of_string piece) :: pieces.
Proof.
  intros l. induction 1 as [|a w Ha Hw IH].
  - destruct (str_split sep (string_of_list_ascii l)) as [|piece pieces] eqn:Hl.
    + by apply str_split_not_nil in Hl.
    + exists piece, pieces. split; [done|]. simpl.
      rewrite Hl, string_of_list_ascii_of_string. done.
  - destruct IH as (piece & pieces & Hl & Hwl). exists piece, pieces.
    split; [done|]. simpl. apply Ascii.eqb_neq in Ha. rewrite Ha, Hwl. done.
Qed.

Lemma str_split_blank l :
  blank l →
  Forall (λ piece, spaces (list_ascii_of_string piece))
    (str_split "," (string_of_list_ascii l)).
Proof.
  induction 1 as [|l Hl IH|w l Hw Hl IH].
  - repeat constructor.
  - simpl. constructor; [constructor|exact IH].
  - pose proof whitespace_no_comma as Hno. rewrite Forall_forall in Hno.
    destruct (str_split_prefix "," w l (Hno w Hw))
      as (piece & pieces & Hsplit & ->).
    rewrite Hsplit in IH. apply Forall_cons in IH as [Hpiece Hpieces].
    constructor; [|exact Hpieces].
    rewrite list_ascii_of_string_of_list_ascii. by constructor.
Qed.

(** A string of plain bytes has nothing to strip. *)
Lemma existsb_begins_false c ps l :
  existsb (begins c) ps = false → drop_first ps (c :: l) = None.
Proof.
  induction ps as [|p ps IH]; simpl; [done|].
  intros [Hp Hps]%orb_false_iff. rewrite (IH Hps).
  destruct p as [|a p]; [discriminate|]. simpl in *. by rewrite Hp.
Qed.

Lemma plain_drop_first c l :
  plain c = true →
  drop_first whitespace (c :: l) = None
  ∧ drop_first (map (@rev ascii) whitespace) (c :: l) = None.
Proof.
  unfold plain. rewrite negb_true_iff, existsb_app.
  intros [H1 H2]%orb_false_iff. split; by apply existsb_begins_false.
Qed.

Lemma spaceless_Forall s :
  spaceless s ↔ Forall (λ c, plain c = true) (list_ascii_of_string s).
Proof.
  induction s as [|a s IH]; simpl.
  - split; [constructor|done].
  - rewrite Forall_cons, IH. done.
Qed.

Lemma spaceless_strip s : spaceless s → strip s = s.
Proof.
  rewrite spaceless_Forall. intros Hs. unfold strip.
  rewrite strip_chars_fixed; [apply string_of_list_ascii_of_string|..].
  - destruct (list_ascii_of_string s) as [|c l]; [reflexivity|].
    apply Forall_cons in Hs as [Hc _]. exact (proj1 (plain_drop_first c l Hc)).
  - destruct (rev (list_ascii_of_string s)) as [|c l] eqn:Hrev; [reflexivity|].
    assert (Hin : c ∈ list_ascii_of_string s).
    { apply list_elem_of_In, in_rev. rewrite Hrev. by left. }
    rewrite Forall_forall in Hs. exact (proj2 (plain_drop_first c l (Hs c Hin))).
Qed.

Lemma plain_lower_char c : plain (lower_char c) = plain c.
Proof. destruct c as [[] [] [] [] [] [] [] []]; vm_compute; reflexivity. Qed.

Lemma spaceless_lower s : spaceless (lower s) → spaceless s.
Proof.
  induction s as [|c s IH]; simpl; [trivial|].
  rewrite plain_lower_char. intros [Hc Hs]. split; [exact Hc|exact (IH Hs)].
Qed.

(** ** Allowed origins *)

Lemma stripped_pieces_clean pieces :
  Forall (no_char ",") pieces →
  Forall clean_origin
    (map strip (List.filter (λ o, nonempty (strip o)) pieces)).
Proof.
  induction 1 as [|piece pieces Hpiece _ IH]; simpl; [constructor|].
  destruct (strip piece) as [|c kept] eqn:Hstrip; simpl; [exact IH|].
  constructor; [|exact IH]. rewrite Hstrip. split; [discriminate|]. split.
  - rewrite <- Hstrip. apply strip_idemp.
  - rewrite <- Hstrip. apply strip_no_char, Hpiece.
Qed.

Lemma stripped_pieces_filter pieces :
  map strip (List.filter (λ o, nonempty (strip o)) pieces)
  = List.filter nonempty (map strip pieces).
Proof.
  induction pieces as [|piece pieces IH]; simpl; [reflexivity|].
  destruct (nonempty (strip piece)); simpl; rewrite IH; reflexivity.
Qed.

Lemma stripped_pieces_blank pieces :
  Forall (λ piece, spaces (list_ascii_of_string piece)) pieces →
  map strip (List.filter (λ o, nonempty (strip o)) pieces) = [].
Proof.
  induction 1 as [|piece pieces Hpiece _ IH]; [reflexivity|].
  simpl. rewrite (spaces_strip piece Hpiece). simpl. exact IH.
Qed.

Lemma default_origins_clean : Forall clean_origin default_origins.
Proof.
  repeat constructor; try discriminate;
    try (vm_compute; reflexivity); simpl; repeat split; discriminate.
Qed.

Lemma allowed_origins_clean environ :
  Forall clean_origin (get_allowed_origins_from_env environ).
Proof.
  unfold get_allowed_origins_from_env.
  pose proof (stripped_pieces_clean _
    (str_split_no_sep "," (getenv environ "BACKEND_CORS_ORIGINS" ""))) as Hclean.
  destruct (map strip _); [apply default_origins_clean|exact Hclean].
Qed.

Lemma allowed_origins_not_nil environ : get_allowed_origins_from_env environ ≠ [].
Proof.
  unfold get_allowed_origins_from_env. destruct (map strip _); discriminate.
Qed.

(** X1. Whatever the environment holds, the list of allowed origins is not
    empty, and each origin in it is a non-empty string with no whitespace
    character at either end and no comma. *)
Theorem allowed_origins_well_formed (environ : dict) :
  get_allowed_origins_from_env environ ≠ []
  ∧ Forall (λ o, o ≠ "" ∧ strip o = o ∧ no_char "," o)
      (get_allowed_origins_from_env environ).
Proof.
  split; [apply allowed_origins_not_nil|exact (allowed_origins_clean environ)].
Qed.

(** X2. When [BACKEND_CORS_ORIGINS] is unset, or set to a value made of
    commas and whitespace characters only (the empty string included), the
    two default origins are returned. *)
Theorem allowed_origins_default (environ : dict) :
  (∀ value, environ !! "BACKEND_CORS_ORIGINS" = Some value →
            blank (list_ascii_of_string value)) →
  get_allowed_origins_from_env environ = default_origins.
Proof.
  intros Hblank. unfold get_allowed_origins_from_env.
  assert (Hraw : blank (list_ascii_of_string
                          (getenv environ "BACKEND_CORS_ORIGINS" ""))).
  { unfold getenv. destruct (environ !! "BACKEND_CORS_ORIGINS");
      [auto|constructor]. }
  apply str_split_blank in Hraw. rewrite string_of_list_ascii_of_string in Hraw.
  rewrite (stripped_pieces_blank _ Hraw). reflexivity.
Qed.

Lemma allowed_origins_default_witness :
  get_allowed_origins_from_env ∅ = default_origins
  ∧ get_allowed_origins_from_env blank_environ = default_origins.
Proof.
  split; apply allowed_origins_default.
  - intros value Hvalue. rewrite lookup_empty in Hvalue. discriminate.
  - intros value Hvalue. unfold blank_environ in Hvalue.
    rewrite lookup_singleton_eq in Hvalue. injection Hvalue as <-.
    apply (blank_space (utf8_char 0x20));
      [apply (bool_decide_unpack _); vm_compute; exact I|].
    apply blank_comma.
    apply (blank_space (utf8_char 0xA0));
      [apply (bool_decide_unpack _); vm_compute; exact I|].
    apply blank_comma.
    apply (blank_space (utf8_char 0x3000));
      [apply (bool_decide_unpack _); vm_compute; exact I|].
    constructor.
Defined.

(** X3. When [BACKEND_CORS_ORIGINS] is a comma-separated list with at least
    one entry that is not blank, the result is that list in order, each
    entry stripped of surrounding whitespace and the empty entries dropped;
    the defaults are not added. *)
Theorem allowed_origins_listed (environ : dict) (pieces : list string) :
  Forall (no_char ",") pieces →
  environ !! "BACKEND_CORS_ORIGINS" = Some (String.concat "," pieces) →
  List.filter nonempty (map strip pieces) ≠ [] →
  get_allowed_origins_from_env environ = List.filter nonempty (map strip pieces).
Proof.
  intros Hpieces Hvalue Hsome.
  assert (Hne : pieces ≠ []) by (intros ->; apply Hsome; reflexivity).
  unfold get_allowed_origins_from_env, getenv. rewrite Hvalue.
  rewrite (str_split_concat "," pieces Hne Hpieces), stripped_pieces_filter.
  destruct (List.filter nonempty (map strip pieces)); [congruence|reflexivity].
Qed.

Lemma allowed_origins_listed_witness :
  get_allowed_origins_from_env listing_environ
  = ["https://a.example"; "https://b.example"].
Proof.
  apply (allowed_origins_listed listing_environ
           ["  https://a.example　"; " "; "https://b.example"]).
  - repeat constructor; vm_compute; repeat split; discriminate.
  - unfold listing_environ. rewrite lookup_singleton_eq. reflexivity.
  - vm_compute. discriminate.
Defined.

(** X4. The origins handed to the CORS middleware always include
    [http://localhost:3000], whatever the environment, and each of them is
    a non-empty string with no whitespace character at either end and no
    comma. *)
Theorem cors_origins_members (environ : dict) :
  localhost_origin ∈ cors_origins environ
  ∧ (∀ o, o ∈ cors_origins environ →
          o ≠ "" ∧ strip o = o ∧ no_char "," o).
Proof.
  assert (Hmem : ∀ o, o ∈ cors_origins environ
                      ↔ o = localhost_origin ∨ o ∈ get_allowed_origins_from_env environ).
  { intros o. unfold cors_origins.
    rewrite elem_of_list_to_set, elem_of_app, list_elem_of_singleton. tauto. }
  split; [apply Hmem; left; reflexivity|].
  intros o [->|Ho]%Hmem.
  - pose proof default_origins_clean as Hdef.
    apply Forall_cons in Hdef as [Hlocal _]. exact Hlocal.
  - pose proof (allowed_origins_clean environ) as Hclean.
    rewrite Forall_forall in Hclean. exact (Hclean o Ho).
Qed.

Lemma cors_origins_members_witness :
  localhost_origin ∈ cors_origins listing_environ
  ∧ strip localhost_origin = localhost_origin.
Proof.
  destruct (cors_origins_members listing_environ) as (Hlocal & Hclean).
  split; [exact Hlocal|]. exact (proj1 (proj2 (Hclean _ Hlocal))).
Defined.

(** ** The credentials switch *)

(** X5. Credentials are allowed exactly when [BACKEND_CORS_CREDENTIALS] is
    set to [1], [true] or [yes] in any letter case; the value is not
    stripped, so with surrounding whitespace -- or when unset -- they are
    off. *)
Theorem allow_credentials_when (environ : dict) :
  (allow_credentials_env environ = true
   ↔ ∃ value, environ !! "BACKEND_CORS_CREDENTIALS" = Some value
              ∧ (lower value = "1" ∨ lower value = "true" ∨ lower value = "yes"))
  ∧ (allow_credentials_env environ = true →
     ∃ value, environ !! "BACKEND_CORS_CREDENTIALS" = Some value
              ∧ strip value = value).
Proof.
  assert (Hiff : allow_credentials_env environ = true
    ↔ ∃ value, environ !! "BACKEND_CORS_CREDENTIALS" = Some value
               ∧ (lower value = "1" ∨ lower value = "true" ∨ lower value = "yes")).
  { unfold allow_credentials_env, getenv. rewrite bool_decide_eq_true.
    rewrite !elem_of_cons, elem_of_nil.
    destruct (environ !! "BACKEND_CORS_CREDENTIALS") as [value|].
    - split.
      + intros H. exists value. split; [reflexivity|]. tauto.
      + intros (value' & [= <-] & H). tauto.
    - split.
      + intros [H|[H|[H|[]]]]; discriminate.
      + intros (value' & Hnone & _). discriminate. }
  split; [exact Hiff|].
  intros (value & Hvalue & Hlow)%Hiff. exists value. split; [exact Hvalue|].
  apply spaceless_strip, spaceless_lower.
  destruct Hlow as [Hlow | [Hlow | Hlow]]; rewrite Hlow;
    vm_compute; repeat split.
Qed.

Lemma allow_credentials_when_witness :
  allow_credentials_env {[ "BACKEND_CORS_CREDENTIALS" := "True" ]} = true
  ∧ allow_credentials_env {[ "BACKEND_CORS_CREDENTIALS" := " true" ]} = false
  ∧ allow_credentials_env ∅ = false.
Proof.
  split; [|split].
  - apply (proj1 (allow_credentials_when _)). exists "True".
    split; [apply lookup_singleton_eq|]. right. left. reflexivity.
  - destruct (allow_credentials_env {[ "BACKEND_CORS_CREDENTIALS" := " true" ]})
      eqn:Hon; [|reflexivity].
    destruct (proj2 (allow_credentials_when _) Hon) as (value & Hvalue & Hstrip).
    rewrite lookup_singleton_eq in Hvalue. injection Hvalue as <-.
    vm_compute in Hstrip. discriminate.
  - destruct (allow_credentials_env ∅) eqn:Hon; [|reflexivity].
    destruct (proj2 (allow_credentials_when _) Hon) as (value & Hvalue & _).
    rewrite lookup_empty in Hvalue. discriminate.
Defined.

(** ** Inside the digest *)

Module Sha256Blocks.
Import Sha256.

Lemma length_be_bytes count x : List.length (be_bytes count x) = count.
Proof. unfold be_bytes. rewrite length_map, length_rev, length_seq. reflexivity. Qed.

Lemma length_pad msg :
  List.length (pad msg)
  = (List.length msg + 9 + zero_pad (N.of_nat (List.length msg)))%nat.
Proof.
  unfold pad. rewrite length_app. simpl.
  rewrite length_app, repeat_length, length_be_bytes. lia.
Qed.

Lemma zero_pad_fits n :
  ((n + 9 + zero_pad (N.of_nat n)) mod 64 = 0)%nat ∧ (zero_pad (N.of_nat n) < 64)%nat.
Proof.
  unfold zero_pad. split.
  - zify. Z.div_mod_to_equations. lia.
  - zify. Z.div_mod_to_equations. lia.
Qed.

Lemma concat_chunks {A} size n : ∀ l : list A,
  List.length l = (n * size)%nat → List.concat (chunks size n l) = l.
Proof.
  induction n as [|n IH]; intros l Hlen; simpl.
  - destruct l; [reflexivity|discriminate].
  - rewrite IH; [apply firstn_skipn|]. rewrite length_skipn. lia.
Qed.

Lemma add32_range x y : add32 x y < 2 ^ 32.
Proof. unfold add32, wrap32. apply N.mod_lt. discriminate. Qed.

Lemma compress_range h block : in_range (compress h block).
Proof.
  unfold compress, in_range. cbn [va vb vc vd ve vf vg vh].
  repeat split; apply add32_range.
Qed.

Lemma digest_range msg : in_range (digest msg).
Proof.
  unfold digest.
  generalize (chunks 64 (List.length (pad msg) / 64) (pad msg)).
  intros blocks.
  assert (H0_range : in_range H0) by (repeat split; reflexivity).
  revert H0_range. generalize H0. induction blocks as [|block blocks IH];
    intros h Hh; simpl; [exact Hh|].
  apply IH, compress_range.
Qed.

Lemma be_word_be_bytes x : x < 2 ^ 32 → be_word (be_bytes 4 x) = x.
Proof.
  intros Hx. unfold be_word, be_bytes.
  change (rev (seq 0 4)) with [3; 2; 1; 0]%nat. cbn [map fold_left].
  change (8 * N.of_nat 3) with 24. change (8 * N.of_nat 2) with 16.
  change (8 * N.of_nat 1) with 8. change (8 * N.of_nat 0) with 0.
  rewrite !N.shiftr_div_pow2.
  change (2 ^ 32) with 4294967296 in Hx.
  change (2 ^ 24) with 16777216. change (2 ^ 16) with 65536.
  change (2 ^ 8) with 256. change (2 ^ 0) with 1.
  zify. Z.div_mod_to_equations. lia.
Qed.

Lemma pad_blocks msg :
  List.length (pad msg) = (List.length (pad msg) / 64 * 64)%nat.
Proof.
  rewrite length_pad.
  pose proof (zero_pad_fits (List.length msg)) as [Hmod _].
  pose proof (Nat.div_mod_eq
    (List.length msg + 9 + zero_pad (N.of_nat (List.length msg))) 64).
  lia.
Qed.

End Sha256Blocks.

(** X17. Padding for the digest keeps the message bytes as a prefix, adds
    between 9 and 72 bytes, and always ends on a 64-byte boundary, so the
    blocks that are hashed are the whole padded message: no byte of the
    password is left out, and the empty password still gives one block. *)
Theorem pad_whole_blocks (msg : list N) :
  (List.length (Sha256.pad msg) mod 64 = 0)%nat
  ∧ (List.length msg + 9 ≤ List.length (Sha256.pad msg) ≤ List.length msg + 72)%nat
  ∧ firstn (List.length msg) (Sha256.pad msg) = msg
  ∧ List.concat (Sha256.chunks 64 (List.length (Sha256.pad msg) / 64)
                   (Sha256.pad msg))
    = Sha256.pad msg.
Proof.
  pose proof (Sha256Blocks.zero_pad_fits (List.length msg)) as [Hmod Hlt].
  split; [rewrite Sha256Blocks.length_pad; exact Hmod|].
  split; [rewrite Sha256Blocks.length_pad; lia|]. split.
  - unfold Sha256.pad. apply take_app_length.
  - apply Sha256Blocks.concat_chunks, Sha256Blocks.pad_blocks.
Qed.

(** X18. Every word of a digest is a 32-bit word -- the additions wrap
    around -- so the 32 digest bytes carry the eight words exactly: reading
    the bytes back four at a time, big-endian, gives the words. *)
Theorem digest_words_exact (msg : list N) :
  in_range (Sha256.digest msg)
  ∧ map Sha256.be_word
        (Sha256.chunks 4 8 (Sha256.digest_bytes (Sha256.digest msg)))
    = [ Sha256.va (Sha256.digest msg); Sha256.vb (Sha256.digest msg);
        Sha256.vc (Sha256.digest msg); Sha256.vd (Sha256.digest msg);
        Sha256.ve (Sha256.digest msg); Sha256.vf (Sha256.digest msg);
        Sha256.vg (Sha256.digest msg); Sha256.vh (Sha256.digest msg) ].
Proof.
  pose proof (Sha256Blocks.digest_range msg) as Hrange.
  split; [exact Hrange|].
  revert Hrange. generalize (Sha256.digest msg). intros [a b c d e f g h].
  unfold in_range. cbn [Sha256.va Sha256.vb Sha256.vc Sha256.vd
                        Sha256.ve Sha256.vf Sha256.vg Sha256.vh].
  intros (Ha & Hb & Hc & Hd & He & Hf & Hg & Hh).
  change (Sha256.chunks 4 8 (Sha256.digest_bytes (Sha256.State a b c d e f g h)))
    with [ Sha256.be_bytes 4 a; Sha256.be_bytes 4 b; Sha256.be_bytes 4 c;
           Sha256.be_bytes 4 d; Sha256.be_bytes 4 e; Sha256.be_bytes 4 f;
           Sha256.be_bytes 4 g; Sha256.be_bytes 4 h ].
  cbn [map].
  rewrite !Sha256Blocks.be_word_be_bytes by assumption. reflexivity.
Qed.

